(** * Scene generation front-end: image codec, orchestrator and retry loop

    A shallow embedding of [src/services/geminiService.ts] and of the
    generation handlers of [src/App.tsx], with the properties of the
    specification stated over it.

    - JavaScript strings are sequences of UTF-16 code units.
    - The regular expression of [parseDataUrl] is kept as a syntax tree and
      run by a backtracking matcher written after the ECMAScript pattern
      semantics (continuation-passing matchers, greedy quantifiers).
    - Asynchronous code is a tree of effects ([Proc]): console output, the
      remote call, timers, React state setters and the cancellation ref.
      Two interpreters give it meaning: [perform] runs one service call
      against a remote answer, [step] is the browser event loop in which
      user actions interleave with the settling of pending promises. *)

From Stdlib Require Import String Ascii NArith PeanoNat Bool Lia List.
From Stdlib Require Import Decimal DecimalString.
Import ListNotations.

Set Implicit Arguments.

(* ------------------------------------------------------------------ *)
(** ** JavaScript strings *)

Module Js.

(** A UTF-16 code unit. *)
Definition char16 := N.

Definition jsstring := list char16.

(** An ASCII literal of the source as a JavaScript string. *)
Definition lit (s : string) : jsstring :=
  map N_of_ascii (list_ascii_of_string s).

(** The character U+0022, which a Rocq literal cannot hold. *)
Definition dquote : jsstring := [34%N].

(** [String(n)] for a non-negative integer. *)
Definition show (n : N) : jsstring :=
  lit (NilEmpty.string_of_uint (N.to_uint n)).

(** Interpolation of a possibly [undefined] string in a template literal. *)
Definition interpolate (o : option jsstring) : jsstring :=
  match o with
  | Some s => s
  | None => lit "undefined"
  end.

(** Truthiness of [string | null | undefined]: the empty string is falsy. *)
Definition truthy (o : option jsstring) : bool :=
  match o with
  | Some (_ :: _) => true
  | _ => false
  end.

(** [a || b] on strings. *)
Definition or_else (o : option jsstring) (d : jsstring) : jsstring :=
  match o with
  | Some (c :: s) => c :: s
  | _ => d
  end.

Definition in_range (lo hi c : char16) : bool :=
  ((lo <=? c) && (c <=? hi))%N.

(** [s.includes(t)] *)
Definition includes (s t : jsstring) : Prop :=
  exists pre post, s = pre ++ t ++ post.

End Js.
Import Js.

(* ------------------------------------------------------------------ *)
(** ** Regular expressions *)

Module RegExp.

(** The fragment of pattern syntax the source uses. *)
Inductive regex : Type :=
| Empty
| Char (c : char16)                  (* a pattern character, [\/] included *)
| Class (p : char16 -> bool)         (* [\w], [.] *)
| Seq (r1 r2 : regex)
| Repeat (min : nat) (r : regex)     (* greedy [r*] (min 0) and [r+] (min 1) *)
| Group (i : nat) (r : regex)        (* the i-th capturing parentheses *)
| Bol                                (* [^] without the m flag *)
| Eol.                               (* [$] without the m flag *)

Definition Star := Repeat 0.
Definition Plus := Repeat 1.

(** A run of pattern characters. *)
Fixpoint chars (l : jsstring) : regex :=
  match l with
  | [] => Empty
  | c :: l' => Seq (Char c) (chars l')
  end.

(** [\w] is [A-Za-z0-9_]. *)
Definition word (c : char16) : bool :=
  in_range 97%N 122%N c || in_range 65%N 90%N c || in_range 48%N 57%N c || (c =? 95)%N.

(** Line terminators: LF, CR, LS, PS. *)
Definition line_terminator (c : char16) : bool :=
  ((c =? 10) || (c =? 13) || (c =? 8232) || (c =? 8233))%N.

(** [.] without the s flag. *)
Definition dot (c : char16) : bool := negb (line_terminator c).

(** The matcher state: what is left of the input after the current
    position, and the captures made so far. *)
Record MatchState : Type := {
  rest : jsstring;
  captures : nat -> option jsstring
}.

Definition continuation := MatchState -> option MatchState.

Definition advance (x : MatchState) (t : jsstring) : MatchState :=
  {| rest := t; captures := captures x |}.

Definition capture (i : nat) (x y : MatchState) : MatchState :=
  {| rest := rest y;
     captures := fun j =>
       if Nat.eqb j i
       then Some (firstn (length (rest x) - length (rest y)) (rest x))
       else captures y j |}.

(** RepeatMatcher for a greedy quantifier without upper bound: an
    iteration that consumes nothing once [min] is reached is rejected. *)
Fixpoint RepeatMatcher (atom : MatchState -> continuation -> option MatchState)
    (fuel min : nat) (x : MatchState) (c : continuation) : option MatchState :=
  match fuel with
  | O => None
  | S fuel' =>
    let d := fun y =>
      if Nat.eqb min 0 && Nat.eqb (length (rest y)) (length (rest x))
      then None
      else RepeatMatcher atom fuel' (Nat.pred min) y c in
    if Nat.eqb min 0 then
      match atom x d with
      | Some z => Some z
      | None => c x
      end
    else atom x d
  end.

Section Matcher.

Variable input : jsstring.

Fixpoint m (r : regex) (x : MatchState) (c : continuation) : option MatchState :=
  match r with
  | Empty => c x
  | Char ch =>
    match rest x with
    | a :: t => if (a =? ch)%N then c (advance x t) else None
    | [] => None
    end
  | Class p =>
    match rest x with
    | a :: t => if p a then c (advance x t) else None
    | [] => None
    end
  | Seq r1 r2 => m r1 x (fun y => m r2 y c)
  | Repeat min r' => RepeatMatcher (m r') (min + S (length (rest x))) min x c
  | Group i r' => m r' x (fun y => c (capture i x y))
  | Bol => if Nat.eqb (length (rest x)) (length input) then c x else None
  | Eol => match rest x with [] => c x | _ :: _ => None end
  end.

(** The match is attempted at every start index in turn, from the
    suffix [s] of the input onwards. *)
Fixpoint scan (r : regex) (s : jsstring) : option MatchState :=
  match m r {| rest := s; captures := fun _ => None |} Some with
  | Some y => Some y
  | None =>
    match s with
    | [] => None
    | _ :: t => scan r t
    end
  end.

End Matcher.

(** [str.match(r)] for a pattern without the g flag: the captures of the
    first match, or [null]. *)
Definition str_match (str : jsstring) (r : regex) : option (nat -> option jsstring) :=
  option_map captures (scan str r str).

End RegExp.
Import RegExp.


(* ------------------------------------------------------------------ *)
(** ** Data of the remote interface ([@google/genai]) *)

Module GenAI.

(** [{ mimeType, data }]: the object [parseDataUrl] returns and the
    [inlineData] of a part.  Either property may be [undefined]. *)
Record ImagePayload : Type := {
  mimeType : option jsstring;
  data : option jsstring
}.

Record Part : Type := {
  inlineData : option ImagePayload;
  part_text : option jsstring
}.

Record Content : Type := { parts : option (list Part) }.

Record Candidate : Type := { content : option Content }.

(** The response: its candidates and the aggregate text the SDK exposes
    as [response.text]. *)
Record GenerateContentResponse : Type := {
  candidates : option (list Candidate);
  text : option jsstring
}.

Inductive Modality : Type := IMAGE | TEXT.

Record GenerateContentParameters : Type := {
  model : jsstring;
  contents : list Part;
  responseModalities : list Modality
}.

End GenAI.
Import GenAI.

(* ------------------------------------------------------------------ *)
(** ** State of the [App] component *)

Module AppData.

Inductive PromptOption : Type := lifestyle | fashion | custom.

Inductive Screen : Type := Idle | Generating | Results | Error.

Inductive ImageKind : Type := person | product.

(** The two entries of the [PROMPT_OPTIONS] object. *)
Definition PROMPT_OPTIONS_lifestyle : jsstring :=
  lit "Create a photorealistic lifestyle image of the person happily using the product in a bright, modern living room.".

Definition PROMPT_OPTIONS_fashion : jsstring :=
  lit "Generate a high-fashion studio shot of the person modeling the product against a clean, minimalist background.".

(** The [useState] cells and the [useRef] cell of [App]. *)
Record AppState : Type := {
  personImage : option jsstring;
  productImage : option jsstring;
  promptOption : PromptOption;
  prompt : jsstring;
  generatedImage : option jsstring;
  isLoading : bool;
  error : option jsstring;
  appState : Screen;
  generationCancelledRef : bool
}.

Definition initialState : AppState := {|
  personImage := None;
  productImage := None;
  promptOption := lifestyle;
  prompt := PROMPT_OPTIONS_lifestyle;
  generatedImage := None;
  isLoading := false;
  error := None;
  appState := Idle;
  generationCancelledRef := false
|}.

(** The state setters, and the assignment to [generationCancelledRef.current]. *)
Inductive Setter : Type :=
| setPersonImage (v : option jsstring)
| setProductImage (v : option jsstring)
| setPromptOption (v : PromptOption)
| setPrompt (v : jsstring)
| setGeneratedImage (v : option jsstring)
| setIsLoading (v : bool)
| setError (v : option jsstring)
| setAppState (v : Screen)
| setCancelledRef (v : bool).

Definition assign (a : Setter) (s : AppState) : AppState :=
  match a with
  | setPersonImage v =>
    {| personImage := v; productImage := productImage s;
       promptOption := promptOption s; prompt := prompt s;
       generatedImage := generatedImage s; isLoading := isLoading s;
       error := error s; appState := appState s;
       generationCancelledRef := generationCancelledRef s |}
  | setProductImage v =>
    {| personImage := personImage s; productImage := v;
       promptOption := promptOption s; prompt := prompt s;
       generatedImage := generatedImage s; isLoading := isLoading s;
       error := error s; appState := appState s;
       generationCancelledRef := generationCancelledRef s |}
  | setPromptOption v =>
    {| personImage := personImage s; productImage := productImage s;
       promptOption := v; prompt := prompt s;
       generatedImage := generatedImage s; isLoading := isLoading s;
       error := error s; appState := appState s;
       generationCancelledRef := generationCancelledRef s |}
  | setPrompt v =>
    {| personImage := personImage s; productImage := productImage s;
       promptOption := promptOption s; prompt := v;
       generatedImage := generatedImage s; isLoading := isLoading s;
       error := error s; appState := appState s;
       generationCancelledRef := generationCancelledRef s |}
  | setGeneratedImage v =>
    {| personImage := personImage s; productImage := productImage s;
       promptOption := promptOption s; prompt := prompt s;
       generatedImage := v; isLoading := isLoading s;
       error := error s; appState := appState s;
       generationCancelledRef := generationCancelledRef s |}
  | setIsLoading v =>
    {| personImage := personImage s; productImage := productImage s;
       promptOption := promptOption s; prompt := prompt s;
       generatedImage := generatedImage s; isLoading := v;
       error := error s; appState := appState s;
       generationCancelledRef := generationCancelledRef s |}
  | setError v =>
    {| personImage := personImage s; productImage := productImage s;
       promptOption := promptOption s; prompt := prompt s;
       generatedImage := generatedImage s; isLoading := isLoading s;
       error := v; appState := appState s;
       generationCancelledRef := generationCancelledRef s |}
  | setAppState v =>
    {| personImage := personImage s; productImage := productImage s;
       promptOption := promptOption s; prompt := prompt s;
       generatedImage := generatedImage s; isLoading := isLoading s;
       error := error s; appState := v;
       generationCancelledRef := generationCancelledRef s |}
  | setCancelledRef v =>
    {| personImage := personImage s; productImage := productImage s;
       promptOption := promptOption s; prompt := prompt s;
       generatedImage := generatedImage s; isLoading := isLoading s;
       error := error s; appState := appState s;
       generationCancelledRef := v |}
  end.

End AppData.
Import AppData.


(* ------------------------------------------------------------------ *)
(** ** Effects *)

(** What [JSON.stringify(v)] does: it returns a text, it returns
    [undefined] (for [undefined], a function, a symbol), or it throws a
    [TypeError] with some message (for a cyclic object, a BigInt). *)
Inductive stringified : Type :=
| Rendered (json : jsstring)
| NotRendered
| Raises (message : jsstring).

Section Runtime.

(** The values other than [Error] instances that the remote client may
    throw, and what [JSON.stringify] does on each of them.  Both belong to
    the JavaScript runtime and are left open. *)
Context {V : Type}.
Variable JSON_stringify : V -> stringified.

(** What a [catch] clause receives. *)
Inductive thrown : Type :=
| JsError (message : jsstring)       (* [instanceof Error] *)
| JsValue (v : V).

(** How the promise of the remote call settles. *)
Inductive settled : Type :=
| Fulfilled (response : GenerateContentResponse)
| Rejected (reason : thrown).

(** An argument of [console.error]. *)
Inductive logarg : Type :=
| LogString (s : option jsstring)
| LogThrown (e : thrown).

(** Code with effects, as the tree of what it does next.  A continuation
    is what runs when an awaited promise settles or a read returns. *)
Inductive Proc (A : Type) : Type :=
| Ret (a : A)
| Throw (e : thrown)
| ConsoleError (args : list logarg) (k : Proc A)
| GenerateContent (params : GenerateContentParameters) (k : settled -> Proc A)
| Timeout (ms : N) (k : Proc A)
| ReadCancelled (k : bool -> Proc A)
| Dispatch (a : Setter) (k : Proc A).

Arguments Ret {A} a.
Arguments Throw {A} e.
Arguments ConsoleError {A} args k.
Arguments GenerateContent {A} params k.
Arguments Timeout {A} ms k.
Arguments ReadCancelled {A} k.
Arguments Dispatch {A} a k.

Fixpoint bind {A B : Type} (p : Proc A) (f : A -> Proc B) : Proc B :=
  match p with
  | Ret a => f a
  | Throw e => Throw e
  | ConsoleError args k => ConsoleError args (bind k f)
  | GenerateContent params k => GenerateContent params (fun o => bind (k o) f)
  | Timeout ms k => Timeout ms (bind k f)
  | ReadCancelled k => ReadCancelled (fun b => bind (k b) f)
  | Dispatch a k => Dispatch a (bind k f)
  end.

(** [try { p } catch (error) { h error }] *)
Fixpoint try_catch {A : Type} (p : Proc A) (h : thrown -> Proc A) : Proc A :=
  match p with
  | Ret a => Ret a
  | Throw e => h e
  | ConsoleError args k => ConsoleError args (try_catch k h)
  | GenerateContent params k => GenerateContent params (fun o => try_catch (k o) h)
  | Timeout ms k => Timeout ms (try_catch k h)
  | ReadCancelled k => ReadCancelled (fun b => try_catch (k b) h)
  | Dispatch a k => Dispatch a (try_catch k h)
  end.

Notation "x <- p ;; q" := (bind p (fun x => q))
  (at level 61, p at next level, right associativity).
Notation "p ;; q" := (bind p (fun _ => q))
  (at level 61, right associativity).

Definition console_error (args : list logarg) : Proc unit :=
  ConsoleError args (Ret tt).

Definition set (a : Setter) : Proc unit := Dispatch a (Ret tt).

(** [await ai.models.generateContent(params)]: a rejection is thrown at
    the [await]. *)
Definition generateContent (params : GenerateContentParameters)
    : Proc GenerateContentResponse :=
  GenerateContent params (fun o =>
    match o with
    | Fulfilled response => Ret response
    | Rejected reason => Throw reason
    end).

(** [await new Promise(resolve => setTimeout(resolve, ms))] *)
Definition sleep (ms : N) : Proc unit := Timeout ms (Ret tt).

(* ------------------------------------------------------------------ *)
(** ** [services/geminiService.ts] *)

(** [part => part.inlineData]: an object is truthy. *)
Definition has_inlineData (part : Part) : bool :=
  match inlineData part with
  | Some _ => true
  | None => false
  end.

(** [response.candidates?.[0]?.content?.parts?.find(part => part.inlineData)] *)
Definition imagePartFromResponse (response : GenerateContentResponse) : option Part :=
  match candidates response with
  | None => None
  | Some cs =>
    match nth_error cs 0 with
    | None => None
    | Some candidate =>
      match content candidate with
      | None => None
      | Some ct =>
        match parts ct with
        | None => None
        | Some ps => find has_inlineData ps
        end
      end
    end
  end.

Definition no_image_message (textResponse : option jsstring) : jsstring :=
  lit "The AI model responded with text instead of an image: " ++ dquote
    ++ or_else textResponse (lit "No text response received.") ++ dquote.

Definition processGeminiResponse (response : GenerateContentResponse) : Proc jsstring :=
  match
    match imagePartFromResponse response with
    | Some part => inlineData part
    | None => None
    end
  with
  | Some blob =>
    Ret (lit "data:" ++ interpolate (mimeType blob) ++ lit ";base64,"
           ++ interpolate (data blob))
  | None =>
    let textResponse := text response in
    console_error [LogString (Some (lit "API did not return an image. Response:"));
                   LogString textResponse] ;;
    Throw (JsError (no_image_message textResponse))
  end.

(** The pattern literal of [parseDataUrl]: [^], [data:], group 1 holding
    [image\/\w+], [;base64,], group 2 holding a greedy star of [.], [$]. *)
Definition data_url_pattern : regex :=
  Seq Bol
 (Seq (chars (lit "data:"))
 (Seq (Group 1 (Seq (chars (lit "image/")) (Plus (Class word))))
 (Seq (chars (lit ";base64,"))
 (Seq (Group 2 (Star (Class dot)))
      Eol)))).

Definition invalid_format_message : jsstring :=
  lit "Invalid image data URL format. Expected 'data:image/...;base64,...'".

Definition parseDataUrl (dataUrl : jsstring) : Proc ImagePayload :=
  match str_match dataUrl data_url_pattern with
  | None => Throw (JsError invalid_format_message)
  | Some groups => Ret {| mimeType := groups 1; data := groups 2 |}
  end.

Definition inline_part (image : ImagePayload) : Part :=
  {| inlineData := Some {| mimeType := mimeType image; data := data image |};
     part_text := None |}.

(** The request of [generateProductScene]. *)
Definition buildRequest (personImage productImage : ImagePayload) (prompt : jsstring)
    : GenerateContentParameters :=
  let personImagePart := inline_part personImage in
  let productImagePart := inline_part productImage in
  let textPart := {| inlineData := None; part_text := Some prompt |} in
  {| model := lit "gemini-2.5-flash-image-preview";
     contents := [personImagePart; productImagePart; textPart];
     responseModalities := [IMAGE; TEXT] |}.

(** The [try] block of [generateProductScene]. *)
Definition generateProductScene_try (personImageDataUrl productImageDataUrl prompt : jsstring)
    : Proc jsstring :=
  personImage <- parseDataUrl personImageDataUrl ;;
  productImage <- parseDataUrl productImageDataUrl ;;
  response <- generateContent (buildRequest personImage productImage prompt) ;;
  processGeminiResponse response.

(** [error instanceof Error ? error.message : JSON.stringify(error)] *)
Definition errorMessage_of (error : thrown) : stringified :=
  match error with
  | JsError message => Rendered message
  | JsValue v => JSON_stringify v
  end.

(** The [catch] block of [generateProductScene].  When [JSON.stringify]
    throws, its [TypeError] leaves the block in place of the new [Error]. *)
Definition generateProductScene_catch (error : thrown) : Proc jsstring :=
  console_error [LogString (Some (lit "An unrecoverable error occurred during image generation."));
                 LogThrown error] ;;
  match errorMessage_of error with
  | Rendered errorMessage =>
    Throw (JsError (lit "The AI model failed to generate an image. Details: "
                      ++ errorMessage))
  | NotRendered =>
    Throw (JsError (lit "The AI model failed to generate an image. Details: "
                      ++ interpolate None))
  | Raises message => Throw (JsError message)
  end.

(** The message of the error that leaves the [catch] block. *)
Definition generation_failed_message (error : thrown) : jsstring :=
  match errorMessage_of error with
  | Rendered errorMessage =>
    lit "The AI model failed to generate an image. Details: " ++ errorMessage
  | NotRendered =>
    lit "The AI model failed to generate an image. Details: " ++ interpolate None
  | Raises message => message
  end.

Definition generateProductScene (personImageDataUrl productImageDataUrl prompt : jsstring)
    : Proc jsstring :=
  try_catch (generateProductScene_try personImageDataUrl productImageDataUrl prompt)
            generateProductScene_catch.

(* ------------------------------------------------------------------ *)
(** ** [App.tsx]: the handlers *)

Definition MAX_ATTEMPTS : N := 3.

Definition retrying_message (attempt : N) : jsstring :=
  lit "That didn't work, trying again... (Attempt " ++ show attempt
    ++ lit "/" ++ show MAX_ATTEMPTS ++ lit ")".

Definition terminal_message : jsstring :=
  lit "Sorry, the AI couldn't create an image. Please try different images or a new prompt.".

(** How an iteration of the [for] loop ends: by [return], or by reaching
    the end of its body. *)
Inductive flow : Type := Return | Next.

(** The statements of the [try] block that follow the [await]. *)
Definition on_result (resultUrl : jsstring) : Proc flow :=
  ReadCancelled (fun cancelled =>
    if cancelled then Ret Return else
    set (setGeneratedImage (Some resultUrl)) ;;
    set (setError None) ;;
    set (setIsLoading false) ;;
    set (setAppState Results) ;;
    Ret Return).

(** The [try] block of the loop body. *)
Definition attempt_try (attempt : N) (personImage productImage prompt : jsstring)
    : Proc flow :=
  (if (1 <? attempt)%N
   then set (setError (Some (retrying_message attempt)))
   else Ret tt) ;;
  resultUrl <- generateProductScene personImage productImage prompt ;;
  on_result resultUrl.

(** The [catch] block of the loop body. *)
Definition attempt_catch (attempt : N) (err : thrown) : Proc flow :=
  ReadCancelled (fun cancelled =>
    if cancelled then Ret Return else
    let errorMessage :=
      match err with
      | JsError message => message
      | JsValue _ => lit "An unknown error occurred."
      end in
    console_error [LogString (Some (lit "Generation attempt " ++ show attempt ++ lit " failed:"));
                   LogString (Some errorMessage)] ;;
    if (attempt =? MAX_ATTEMPTS)%N then
      set (setError (Some terminal_message)) ;;
      set (setIsLoading false) ;;
      set (setAppState Error) ;;
      Ret Return
    else
      sleep 2000 ;;
      Ret Next).

(** [for (let attempt = ...; attempt <= MAX_ATTEMPTS; attempt++)], entered
    at [attempt]; [fuel] bounds the iterations left. *)
Fixpoint attempts (fuel : nat) (attempt : N) (personImage productImage prompt : jsstring)
    : Proc unit :=
  match fuel with
  | O => Ret tt
  | S fuel' =>
    if (attempt <=? MAX_ATTEMPTS)%N then
      ReadCancelled (fun cancelled =>
        if cancelled then Ret tt else
        f <- try_catch (attempt_try attempt personImage productImage prompt)
                       (attempt_catch attempt) ;;
        match f with
        | Return => Ret tt
        | Next => attempts fuel' (attempt + 1) personImage productImage prompt
        end)
    else Ret tt
  end.

(** [handleGenerate], closed over the state [s] of the render it was
    created in. *)
Definition handleGenerate (s : AppState) : Proc unit :=
  match personImage s, productImage s with
  | Some (c :: p), Some (c' :: q) =>
    set (setIsLoading true) ;;
    set (setGeneratedImage None) ;;
    set (setError None) ;;
    set (setAppState Generating) ;;
    set (setCancelledRef false) ;;
    attempts (S (N.to_nat MAX_ATTEMPTS)) 1 (c :: p) (c' :: q) (prompt s)
  | _, _ => Ret tt
  end.

Definition handleCancel : Proc unit :=
  set (setCancelledRef true) ;;
  set (setIsLoading false) ;;
  set (setAppState Idle) ;;
  set (setError None) ;;
  set (setGeneratedImage None).

Definition handleReset : Proc unit :=
  set (setCancelledRef true) ;;
  set (setPersonImage None) ;;
  set (setProductImage None) ;;
  set (setGeneratedImage None) ;;
  set (setError None) ;;
  set (setIsLoading false) ;;
  set (setAppState Idle) ;;
  set (setPromptOption lifestyle) ;;
  set (setPrompt PROMPT_OPTIONS_lifestyle).

Definition handlePromptOptionChange (option : PromptOption) : Proc unit :=
  set (setPromptOption option) ;;
  match option with
  | lifestyle => set (setPrompt PROMPT_OPTIONS_lifestyle)
  | fashion => set (setPrompt PROMPT_OPTIONS_fashion)
  | custom => Ret tt
  end.

(** [reader.onloadend] of [handleImageUpload], with [reader.result]. *)
Definition handleImageUpload_onloadend (result : jsstring) (type : ImageKind) : Proc unit :=
  (if match type with person => true | product => false end
   then set (setPersonImage (Some result)) else Ret tt) ;;
  (if match type with product => true | person => false end
   then set (setProductImage (Some result)) else Ret tt).

(* ------------------------------------------------------------------ *)
(** ** Running the effects *)

(** What an observer sees, in order. *)
Inductive Effect : Type :=
| Logged (args : list logarg)                  (* a line on the console *)
| Called (params : GenerateContentParameters)  (* a remote call is issued *)
| Waited (ms : N)                              (* a timer is started *)
| Did (a : Setter)                             (* a state cell or the ref is written *)
| Unhandled (e : thrown).                      (* a rejection nobody catches *)

Inductive completion (A : Type) : Type :=
| Returned (a : A)
| Threw (e : thrown).

Arguments Returned {A} a.
Arguments Threw {A} e.

Record Outcome (A : Type) : Type := {
  result : completion A;
  final : AppState;
  trace : list Effect
}.

Definition emit {A : Type} (e : Effect) (o : Outcome A) : Outcome A :=
  {| result := result o; final := final o; trace := e :: trace o |}.

(** One uninterrupted run of [p]: each remote call settles as [remote]
    says and each timer fires, before anything else happens. *)
Fixpoint perform {A : Type} (p : Proc A) (remote : GenerateContentParameters -> settled)
    (s : AppState) : Outcome A :=
  match p with
  | Ret a => {| result := Returned a; final := s; trace := [] |}
  | Throw e => {| result := Threw e; final := s; trace := [] |}
  | ConsoleError args k => emit (Logged args) (perform k remote s)
  | GenerateContent params k => emit (Called params) (perform (k (remote params)) remote s)
  | Timeout ms k => emit (Waited ms) (perform k remote s)
  | ReadCancelled k => perform (k (generationCancelledRef s)) remote s
  | Dispatch a k => emit (Did a) (perform k remote (assign a s))
  end.

(** A task parked at an [await]. *)
Inductive Suspended : Type :=
| AwaitingResponse (k : settled -> Proc unit)
| AwaitingTimer (k : Proc unit).

(** The page: the component state, the parked tasks under the identifiers
    they were given, and the next identifier. *)
Record World : Type := {
  component : AppState;
  pending : list (nat * Suspended);
  fresh : nat
}.

Definition initialWorld : World :=
  {| component := initialState; pending := []; fresh := 0 |}.

Definition park (t : Suspended) (w : World) : World :=
  {| component := component w; pending := (fresh w, t) :: pending w; fresh := S (fresh w) |}.

Definition write (a : Setter) (w : World) : World :=
  {| component := assign a (component w); pending := pending w; fresh := fresh w |}.

(** Run a task until it ends or parks at its next [await]. *)
Fixpoint run (p : Proc unit) (w : World) : World * list Effect :=
  match p with
  | Ret _ => (w, [])
  | Throw e => (w, [Unhandled e])
  | ConsoleError args k => let r := run k w in (fst r, Logged args :: snd r)
  | GenerateContent params k => (park (AwaitingResponse k) w, [Called params])
  | Timeout ms k => (park (AwaitingTimer k) w, [Waited ms])
  | ReadCancelled k => run (k (generationCancelledRef (component w))) w
  | Dispatch a k => let r := run k (write a w) in (fst r, Did a :: snd r)
  end.

(** What the user can do on the page. *)
Inductive UserAction : Type :=
| FileLoaded (type : ImageKind) (result : jsstring)
| ClearImage (type : ImageKind)
| ChoosePrompt (option : PromptOption)
| EditPrompt (value : jsstring)
| ClickMain           (* the button titled Generate Scene or Try Again *)
| ClickCancel         (* Cancel Generation *)
| ClickStartOver.     (* Start Over *)

Definition is_generating (s : AppState) : bool :=
  match appState s with Generating => true | _ => false end.

Definition is_error (s : AppState) : bool :=
  match appState s with Error => true | _ => false end.

Definition is_idle (s : AppState) : bool :=
  match appState s with Idle => true | _ => false end.

(** Whether the control is rendered and not disabled in state [s]. *)
Definition enabled (a : UserAction) (s : AppState) : bool :=
  match a with
  | FileLoaded _ _ => true
  | ClearImage person => truthy (personImage s)
  | ClearImage product => truthy (productImage s)
  | ChoosePrompt _ => true
  | EditPrompt _ => match promptOption s with custom => true | _ => false end
  | ClickMain =>
    negb (is_generating s) && truthy (productImage s) && truthy (personImage s)
  | ClickCancel => is_generating s
  | ClickStartOver =>
    negb (is_idle s) && truthy (generatedImage s) && negb (isLoading s)
      && negb (truthy (error s))
  end.

(** The handler the control is wired to. *)
Definition handler (a : UserAction) (s : AppState) : Proc unit :=
  match a with
  | FileLoaded type result => handleImageUpload_onloadend result type
  | ClearImage person => set (setPersonImage None)
  | ClearImage product => set (setProductImage None)
  | ChoosePrompt option => handlePromptOptionChange option
  | EditPrompt value => set (setPrompt value)
  | ClickMain => if is_error s then handleReset else handleGenerate s
  | ClickCancel => handleCancel
  | ClickStartOver => handleReset
  end.

(** What the event loop dispatches: a user action, the settling of the
    remote call parked under [id], or the firing of the timer parked
    under [id]. *)
Inductive Event : Type :=
| User (a : UserAction)
| Settles (id : nat) (o : settled)
| Fires (id : nat).

Fixpoint take (id : nat) (l : list (nat * Suspended))
    : option (Suspended * list (nat * Suspended)) :=
  match l with
  | [] => None
  | (i, t) :: l' =>
    if Nat.eqb i id then Some (t, l')
    else
      match take id l' with
      | Some (t', r) => Some (t', (i, t) :: r)
      | None => None
      end
  end.

Definition resume (w : World) (others : list (nat * Suspended)) (p : Proc unit)
    : World * list Effect :=
  run p {| component := component w; pending := others; fresh := fresh w |}.

Definition step (w : World) (e : Event) : option (World * list Effect) :=
  match e with
  | User a =>
    if enabled a (component w) then Some (run (handler a (component w)) w) else None
  | Settles id o =>
    match take id (pending w) with
    | Some (AwaitingResponse k, others) => Some (resume w others (k o))
    | _ => None
    end
  | Fires id =>
    match take id (pending w) with
    | Some (AwaitingTimer k, others) => Some (resume w others k)
    | _ => None
    end
  end.

Fixpoint exec (w : World) (es : list Event) : option (World * list Effect) :=
  match es with
  | [] => Some (w, [])
  | e :: es' =>
    match step w e with
    | None => None
    | Some (w1, t1) =>
      match exec w1 es' with
      | None => None
      | Some (w2, t2) => Some (w2, t1 ++ t2)
      end
    end
  end.

End Runtime.

Arguments thrown : clear implicits.
Arguments settled : clear implicits.
Arguments logarg : clear implicits.
Arguments Proc : clear implicits.
Arguments Effect : clear implicits.
Arguments completion : clear implicits.
Arguments Outcome : clear implicits.
Arguments Suspended : clear implicits.
Arguments World : clear implicits.
Arguments Event : clear implicits.
Arguments Ret {V A} a.
Arguments Throw {V A} e.
Arguments ConsoleError {V A} args k.
Arguments GenerateContent {V A} params k.
Arguments Timeout {V A} ms k.
Arguments ReadCancelled {V A} k.
Arguments Dispatch {V A} a k.
Arguments Returned {V A} a.
Arguments Threw {V A} e.

(* ------------------------------------------------------------------ *)
(** ** The vocabulary of the specification *)

Module Spec.

(** [image/\w+], as a whole string. *)
Definition media_type (mimeType : jsstring) : Prop :=
  exists w, mimeType = lit "image/" ++ w /\ w <> [] /\ forallb word w = true.

(** The base64 alphabet, with its padding character. *)
Definition base64_char (c : char16) : bool :=
  in_range 65%N 90%N c || in_range 97%N 122%N c || in_range 48%N 57%N c
    || (c =? 43)%N || (c =? 47)%N || (c =? 61)%N.

Definition base64_text (data : jsstring) : Prop :=
  forallb base64_char data = true.

(** ["data:" + mimeType + ";base64," + data] *)
Definition encode (mimeType data : jsstring) : jsstring :=
  lit "data:" ++ mimeType ++ lit ";base64," ++ data.

(** The strings of the language of [^data:image/\w+;base64,.*$]: the
    literal text, a non-empty run of word characters, the literal text,
    and any characters other than line terminators up to the end. *)
Definition matches_data_url (s : jsstring) : Prop :=
  exists w d,
    s = lit "data:image/" ++ w ++ lit ";base64," ++ d
    /\ w <> [] /\ forallb word w = true /\ forallb dot d = true.

(** The first candidate's content parts; none when any link is missing. *)
Definition first_candidate_parts (response : GenerateContentResponse) : list Part :=
  match candidates response with
  | Some (candidate :: _) =>
    match content candidate with
    | Some ct => match parts ct with Some ps => ps | None => [] end
    | None => []
    end
  | _ => []
  end.

(** No part of the first candidate carries inline binary data. *)
Definition no_inline_data (response : GenerateContentResponse) : Prop :=
  Forall (fun part => inlineData part = None) (first_candidate_parts response).

(** The invariant the data model states for an [ImagePayload]. *)
Definition payload_invariant (p : ImagePayload) : Prop :=
  (exists mt, mimeType p = Some mt /\ media_type mt)
  /\ (exists d, data p = Some d /\ d <> [] /\ base64_text d).

End Spec.
Import Spec.

(* ------------------------------------------------------------------ *)
(** ** What the matcher computes on the data-URL pattern *)

Module Direct.

(** [strip l s]: what follows [l] at the head of [s]. *)
Fixpoint strip (l s : jsstring) : option jsstring :=
  match l, s with
  | [], _ => Some s
  | c :: l', a :: s' => if (a =? c)%N then strip l' s' else None
  | _ :: _, [] => None
  end.

(** The longest prefix of characters in [p], and what follows it. *)
Fixpoint run_of (p : char16 -> bool) (s : jsstring) : jsstring :=
  match s with
  | a :: t => if p a then a :: run_of p t else []
  | [] => []
  end.

Fixpoint skip (p : char16 -> bool) (s : jsstring) : jsstring :=
  match s with
  | a :: t => if p a then skip p t else s
  | [] => []
  end.

(** The two captures, read off the string from left to right. *)
Definition fields (s : jsstring) : option (jsstring * jsstring) :=
  match strip (lit "data:") s with
  | None => None
  | Some s1 =>
    match strip (lit "image/") s1 with
    | Some (a :: t) =>
      if word a then
        match strip (lit ";base64,") (skip word t) with
        | Some d =>
          if forallb dot d
          then Some (lit "image/" ++ a :: run_of word t, d)
          else None
        | None => None
        end
      else None
    | _ => None
    end
  end.

(** A continuation that fails wherever a character of [p] comes next. *)
Definition fails_before (p : char16 -> bool) (c : continuation) : Prop :=
  forall x a t, rest x = a :: t -> p a = true -> c x = None.

End Direct.
Import Direct.

(* ------------------------------------------------------------------ *)
(** ** The retry loop, one suspension at a time *)

Section Loop.

Context {V : Type}.
Variable JSON_stringify : V -> stringified.

(** [generateProductScene] from the settling of its remote call. *)
Definition scene_after (o : settled V) : Proc V jsstring :=
  try_catch
    (bind match o with
          | Fulfilled response => Ret response
          | Rejected reason => Throw reason
          end
          processGeminiResponse)
    (generateProductScene_catch JSON_stringify).

(** The end of an iteration: [return], or [attempt++] and the loop test. *)
Definition next_iteration (fuel : nat) (attempt : N) (p q prompt : jsstring) (f : flow)
    : Proc V unit :=
  match f with
  | Return => Ret tt
  | Next => attempts JSON_stringify fuel (attempt + 1) p q prompt
  end.

(** An iteration from the settling of its remote call. *)
Definition attempt_after (fuel : nat) (attempt : N) (p q prompt : jsstring) (o : settled V)
    : Proc V unit :=
  bind (try_catch (bind (scene_after o) (@on_result V)) (attempt_catch attempt))
       (next_iteration fuel attempt p q prompt).

(** The inline data the response parser picks, if any. *)
Definition picked (response : GenerateContentResponse) : option ImagePayload :=
  match find has_inlineData (first_candidate_parts response) with
  | Some part => inlineData part
  | None => None
  end.

Definition data_url_of (blob : ImagePayload) : jsstring :=
  lit "data:" ++ interpolate (mimeType blob) ++ lit ";base64," ++ interpolate (data blob).

(** The remote call fails: it is rejected, or answers without an image. *)
Definition fails (o : settled V) : Prop :=
  match o with
  | Rejected _ => True
  | Fulfilled response => no_inline_data response
  end.

(** What the [catch] block of [generateProductScene] receives then. *)
Definition cause (o : settled V) : thrown V :=
  match o with
  | Rejected reason => reason
  | Fulfilled response => JsError (no_image_message (text response))
  end.

Definition unrecoverable (e : thrown V) : list (logarg V) :=
  [LogString (Some (lit "An unrecoverable error occurred during image generation."));
   LogThrown e].

(** The console lines of the service for a call that settles as [o]. *)
Definition service_lines (o : settled V) : list (list (logarg V)) :=
  match o with
  | Rejected reason => [unrecoverable reason]
  | Fulfilled response =>
    match picked response with
    | Some _ => []
    | None =>
      [[LogString (Some (lit "API did not return an image. Response:"));
        LogString (text response)];
       unrecoverable (cause o)]
    end
  end.

Definition service_log (o : settled V) : list (Effect V) :=
  map (@Logged V) (service_lines o).

(** Console lines, then [k]. *)
Definition say {A : Type} (lines : list (list (logarg V))) (k : Proc V A) : Proc V A :=
  fold_right (@ConsoleError V A) k lines.

(** The console line of the loop for a failed attempt. *)
Definition attempt_failed (attempt : N) (e : thrown V) : Effect V :=
  Logged [LogString (Some (lit "Generation attempt " ++ show attempt ++ lit " failed:"));
          LogString (Some (generation_failed_message JSON_stringify e))].

(** The transient status of a retry. *)
Definition announce (attempt : N) (w : World V) : World V :=
  if (1 <? attempt)%N then write (setError (Some (retrying_message attempt))) w else w.

Definition status (attempt : N) : list (Effect V) :=
  if (1 <? attempt)%N then [Did (setError (Some (retrying_message attempt)))] else [].

(** The writes of the terminal failure and of the success. *)
Definition abandon (w : World V) : World V :=
  write (setAppState Error)
    (write (setIsLoading false) (write (setError (Some terminal_message)) w)).

Definition abandoned : list (Effect V) :=
  [Did (setError (Some terminal_message)); Did (setIsLoading false); Did (setAppState Error)].

Definition show_result (resultUrl : jsstring) (w : World V) : World V :=
  write (setAppState Results)
    (write (setIsLoading false)
      (write (setError None) (write (setGeneratedImage (Some resultUrl)) w))).

Definition showed_result (resultUrl : jsstring) : list (Effect V) :=
  [Did (setGeneratedImage (Some resultUrl)); Did (setError None);
   Did (setIsLoading false); Did (setAppState Results)].

(** The remote calls and the timers of a trace, in order. *)
Definition is_call_or_wait (e : Effect V) : bool :=
  match e with
  | Called _ | Waited _ => true
  | _ => false
  end.

Definition timeline (t : list (Effect V)) : list (Effect V) := filter is_call_or_wait t.

(** The texts written to the [error] cell, in order. *)
Fixpoint statuses (t : list (Effect V)) : list jsstring :=
  match t with
  | Did (setError (Some message)) :: t' => message :: statuses t'
  | _ :: t' => statuses t'
  | [] => []
  end.

(** The cancellation flag. *)
Definition cancelled (w : World V) : bool := generationCancelledRef (component w).

(** The page after one more identifier has been handed out. *)
Definition tick (w : World V) : World V :=
  {| component := component w; pending := pending w; fresh := S (fresh w) |}.

(** The writes at the head of [handleGenerate]. *)
Definition start (w : World V) : World V :=
  write (setCancelledRef false)
    (write (setAppState Generating)
      (write (setError None)
        (write (setGeneratedImage None) (write (setIsLoading true) w)))).

Definition started : list (Effect V) :=
  [Did (setIsLoading true); Did (setGeneratedImage None); Did (setError None);
   Did (setAppState Generating); Did (setCancelledRef false)].

(** The main button starts a generation with the images [p] and [q]. *)
Definition can_generate (w : World V) (p q : jsstring) : Prop :=
  personImage (component w) = Some p /\ productImage (component w) = Some q
  /\ p <> [] /\ q <> []
  /\ appState (component w) <> Generating /\ appState (component w) <> Error.

(** The writes of [handleCancel] and of [handleReset]. *)
Definition cancel (w : World V) : World V :=
  write (setGeneratedImage None)
    (write (setError None)
      (write (setAppState Idle)
        (write (setIsLoading false) (write (setCancelledRef true) w)))).

Definition cancel_writes : list (Effect V) :=
  [Did (setCancelledRef true); Did (setIsLoading false); Did (setAppState Idle);
   Did (setError None); Did (setGeneratedImage None)].

(** [t], then what [o] did. *)
Definition prepend {A : Type} (t : list (Effect V)) (o : Outcome V A) : Outcome V A :=
  {| result := result o; final := final o; trace := t ++ trace o |}.

(** The state a handler leaves when run alone from [s]. *)
Definition state_after (handler : Proc V unit) (s : AppState) : AppState :=
  final (perform handler (fun _ => Rejected (JsError [])) s).

End Loop.

(* ------------------------------------------------------------------ *)
(** ** Sample data *)

Module Sample.

(** A runtime in which nothing but [Error] instances is thrown. *)
Definition only_errors (v : Empty_set) : stringified := match v with end.

(** A runtime with one thrown value that is not an [Error]: the object [e]
    of [const e = {}; e.self = e].  [JSON.stringify(e)] throws a
    [TypeError]. *)
Inductive cyclic : Type := SelfReferring.

Definition stringify_cyclic (v : cyclic) : stringified :=
  match v with
  | SelfReferring => Raises (lit "Converting circular structure to JSON")
  end.

(** A remote call that rejects with that object. *)
Definition rejects_with_cyclic (params : GenerateContentParameters) : settled cyclic :=
  Rejected (JsValue SelfReferring).

Definition person_url : jsstring := lit "data:image/png;base64,QUJD".
Definition product_url : jsstring := lit "data:image/jpeg;base64,REVG".

Definition person_payload : ImagePayload :=
  {| mimeType := Some (lit "image/png"); data := Some (lit "QUJD") |}.
Definition product_payload : ImagePayload :=
  {| mimeType := Some (lit "image/jpeg"); data := Some (lit "REVG") |}.

(** What [readAsDataURL] yields for a dropped text file. *)
Definition text_file_url : jsstring := lit "data:text/plain;base64,QUJD".

Definition answer (ps : list Part) (t : option jsstring) : GenerateContentResponse :=
  {| candidates := Some [ {| content := Some {| parts := Some ps |} |} ];
     text := t |}.

(** A response with a caption and an image. *)
Definition image_response : GenerateContentResponse :=
  answer
    [ {| inlineData := None; part_text := Some (lit "Here you go") |};
      {| inlineData := Some {| mimeType := Some (lit "image/png");
                               data := Some (lit "AAAA") |};
         part_text := None |} ]
    (Some (lit "Here you go")).

(** A response with text alone. *)
Definition text_response : GenerateContentResponse :=
  answer [ {| inlineData := None; part_text := Some (lit "I can't do that") |} ]
         (Some (lit "I can't do that")).

(** The page once the two files [p] and [q] have been read. *)
Definition loaded (p q : jsstring) : World Empty_set :=
  {| component := assign (setProductImage (Some q))
                    (assign (setPersonImage (Some p)) initialState);
     pending := [];
     fresh := 0 |}.

End Sample.

(* ------------------------------------------------------------------ *)
(** ** Reachable pages *)

Section Reach.

Context {V : Type}.
Variable JSON_stringify : V -> stringified.

(** The tasks the retry loop parks: an iteration waiting for its remote
    call, or the loop waiting for the backoff timer before its next test. *)
Inductive loop_task : Suspended V -> Prop :=
| task_response (fuel : nat) (n : N) (p q prompt : jsstring) :
    (1 <= n <= MAX_ATTEMPTS)%N ->
    loop_task (AwaitingResponse (attempt_after JSON_stringify fuel n p q prompt))
| task_timer (fuel : nat) (n : N) (p q prompt : jsstring) :
    (2 <= n <= MAX_ATTEMPTS)%N ->
    loop_task (AwaitingTimer (attempts JSON_stringify fuel n p q prompt)).

Definition tasks_ok (w : World V) : Prop :=
  Forall (fun it => loop_task (snd it)) (pending w).

(** A request built from two decoded data URLs and a prompt. *)
Definition sent_by_scene (params : GenerateContentParameters) : Prop :=
  exists p q pp qp prompt,
    parseDataUrl (V:=V) p = Ret pp /\ parseDataUrl (V:=V) q = Ret qp
    /\ params = buildRequest pp qp prompt.

(** The texts the loop writes to the [error] cell. *)
Definition user_facing (message : jsstring) : Prop :=
  message = retrying_message 2 \/ message = retrying_message 3
  \/ message = terminal_message.

(** How the loop leaves a page [b] when it stops running. *)
Inductive loop_tail (b : World V) : World V -> list (Effect V) -> Prop :=
| tail_stop : loop_tail b b []
| tail_call (task : Suspended V) (params : GenerateContentParameters) :
    loop_task task -> sent_by_scene params ->
    loop_tail b (park task b) [Called params]
| tail_wait (task : Suspended V) :
    loop_task task -> loop_tail b (park task b) [Waited 2000]
| tail_abandon : loop_tail b (abandon b) abandoned
| tail_show (resultUrl : jsstring) :
    resultUrl <> [] -> loop_tail b (show_result resultUrl b) (showed_result resultUrl).

(** What a run of the loop does to a page: perhaps the status of a retry,
    console lines, and one of the endings above. *)
Inductive loop_effect (w : World V) : World V -> list (Effect V) -> Prop :=
| loop_effect_intro (n : N) (lines : list (list (logarg V))) (w' : World V)
    (tail : list (Effect V)) :
    (1 <= n <= MAX_ATTEMPTS)%N ->
    loop_tail (announce n w) w' tail ->
    loop_effect w w' (status n ++ map (@Logged V) lines ++ tail).

(** The pages the event loop can reach from the first render. *)
Definition reachable (w : World V) : Prop :=
  exists es t, exec JSON_stringify initialWorld es = Some (w, t).

(** What holds of the component state between events. *)
Definition consistent (w : World V) : Prop :=
  isLoading (component w) = is_generating (component w)
  /\ (appState (component w) = Idle ->
      generatedImage (component w) = None /\ error (component w) = None
      /\ (generationCancelledRef (component w) = true \/ pending w = []))
  /\ (appState (component w) = Results ->
      exists resultUrl, generatedImage (component w) = Some resultUrl /\ resultUrl <> [])
  /\ (forall message, error (component w) = Some message -> user_facing message).

(** The shape of a request: the model, two inline images and the text. *)
Definition request_of (a b : ImagePayload) (prompt : jsstring) : GenerateContentParameters :=
  {| model := lit "gemini-2.5-flash-image-preview";
     contents := [ {| inlineData := Some a; part_text := None |};
                   {| inlineData := Some b; part_text := None |};
                   {| inlineData := None; part_text := Some prompt |} ];
     responseModalities := [IMAGE; TEXT] |}.

(** A payload with a media type [image/\w+] and data free of line
    terminators. *)
Definition image_payload (a : ImagePayload) : Prop :=
  exists mt d, a = {| mimeType := Some mt; data := Some d |}
               /\ media_type mt /\ forallb dot d = true.

(** A trace of console lines only. *)
Definition only_logs (t : list (Effect V)) : Prop :=
  Forall (fun e => exists args, e = Logged args) t.

(** Events that are not user actions. *)
Definition background (e : Event V) : bool :=
  match e with
  | User _ => false
  | _ => true
  end.

(** The writes of [handleReset]. *)
Definition reset (w : World V) : World V :=
  write (setPrompt PROMPT_OPTIONS_lifestyle)
    (write (setPromptOption lifestyle)
      (write (setAppState Idle)
        (write (setIsLoading false)
          (write (setError None)
            (write (setGeneratedImage None)
              (write (setProductImage None)
                (write (setPersonImage None) (write (setCancelledRef true) w)))))))).

Definition reset_writes : list (Effect V) :=
  [Did (setCancelledRef true); Did (setPersonImage None); Did (setProductImage None);
   Did (setGeneratedImage None); Did (setError None); Did (setIsLoading false);
   Did (setAppState Idle); Did (setPromptOption lifestyle);
   Did (setPrompt PROMPT_OPTIONS_lifestyle)].

(** The remote calls of a trace. *)
Fixpoint calls (t : list (Effect V)) : list GenerateContentParameters :=
  match t with
  | Called params :: t' => params :: calls t'
  | _ :: t' => calls t'
  | [] => []
  end.

(** The events of an undisturbed session whose calls settle as [o1], [o2]
    and [o3]; the first identifier it is given is [id]. *)
Definition session_events (id : nat) (o1 o2 o3 : settled V) : list (Event V) :=
  [Settles id o1; Fires (1 + id); Settles (2 + id) o2; Fires (3 + id);
   Settles (4 + id) o3].

End Reach.

(* ------------------------------------------------------------------ *)
(** ** Sample pages *)

Module Pages.

Import Sample.

(** The first call of a session is in flight. *)
Definition generating : World Empty_set :=
  park (AwaitingResponse
          (attempt_after only_errors 3 1 person_url product_url PROMPT_OPTIONS_lifestyle))
       (start (loaded person_url product_url)).

(** The same, after Cancel Generation. *)
Definition cancelled_page : World Empty_set :=
  park (AwaitingResponse
          (attempt_after only_errors 3 1 person_url product_url PROMPT_OPTIONS_lifestyle))
       (cancel (start (loaded person_url product_url))).

(** The first call answered with an image. *)
Definition shown : World Empty_set :=
  show_result (lit "data:image/png;base64,AAAA")
    (tick (start (loaded person_url product_url))).

(** Three attempts on a text file failed. *)
Definition failed : World Empty_set :=
  abandon (announce 3 (tick (announce 2 (tick (start (loaded text_file_url product_url)))))).

(** A response whose inline data has no media type. *)
Definition untyped_response : GenerateContentResponse :=
  answer [ {| inlineData := Some {| mimeType := None; data := Some (lit "AAAA") |};
              part_text := None |} ]
         None.

(** A data URL whose base64 text is wrapped over two lines. *)
Definition wrapped_url : jsstring :=
  lit "data:image/png;base64,QUJD" ++ [10%N] ++ lit "REVG".

End Pages.

(* ------------------------------------------------------------------ *)
(** * Properties *)

(** ** The matcher on the data-URL pattern *)

Section MatcherFacts.

Variable input : jsstring.

Lemma advance_rest (x : MatchState) : advance x (rest x) = x.
Proof. destruct x; reflexivity. Qed.

Lemma m_chars (l : jsstring) : forall (x : MatchState) (c : continuation),
  m input (chars l) x c =
  match strip l (rest x) with
  | Some t => c (advance x t)
  | None => None
  end.
Proof.
  induction l as [|ch l IH]; intros x c; simpl.
  - now rewrite advance_rest.
  - destruct (rest x) as [|a t]; [reflexivity|].
    destruct (a =? ch)%N; [|reflexivity].
    rewrite IH. reflexivity.
Qed.

Lemma RepeatMatcher_S (atom : MatchState -> continuation -> option MatchState)
    (fuel min : nat) (x : MatchState) (c : continuation) :
  RepeatMatcher atom (S fuel) min x c =
  let d := fun y =>
    if Nat.eqb min 0 && Nat.eqb (length (rest y)) (length (rest x))
    then None
    else RepeatMatcher atom fuel (Nat.pred min) y c in
  if Nat.eqb min 0 then
    match atom x d with
    | Some z => Some z
    | None => c x
    end
  else atom x d.
Proof. reflexivity. Qed.

Lemma m_Class (p : char16 -> bool) (x : MatchState) (c : continuation) :
  m input (Class p) x c =
  match rest x with
  | a :: t => if p a then c (advance x t) else None
  | [] => None
  end.
Proof. reflexivity. Qed.

(** Greedy repetition over a character class: backtracking into the run
    cannot help such a continuation, so it is entered after the whole run. *)
Lemma repeat_class (p : char16 -> bool) (c : continuation) :
  fails_before p c ->
  forall fuel x, length (rest x) < fuel ->
  RepeatMatcher (m input (Class p)) fuel 0 x c = c (advance x (skip p (rest x))).
Proof.
  intros Hc. induction fuel as [|fuel IH]; intros x Hlen; [lia|].
  rewrite RepeatMatcher_S. cbv zeta. cbn [Nat.eqb andb Nat.pred].
  rewrite m_Class.
  destruct (rest x) as [|a t] eqn:Hx.
  - cbn [skip]. rewrite <- Hx, advance_rest. reflexivity.
  - cbn [skip]. destruct (p a) eqn:Hp.
    + replace (length (rest (advance x t)) =? length (a :: t)) with false
        by (symmetry; apply Nat.eqb_neq; simpl; lia).
      rewrite IH by (simpl in *; lia).
      change (advance (advance x t) (skip p (rest (advance x t))))
        with (advance x (skip p t)).
      destruct (c (advance x (skip p t))); [reflexivity|].
      now apply (Hc x a t).
    + rewrite <- Hx, advance_rest. reflexivity.
Qed.

Lemma m_Repeat (min : nat) (r : regex) (x : MatchState) (c : continuation) :
  m input (Repeat min r) x c =
  RepeatMatcher (m input r) (min + S (length (rest x))) min x c.
Proof. reflexivity. Qed.

Lemma star_class (p : char16 -> bool) (c : continuation) (x : MatchState) :
  fails_before p c ->
  m input (Star (Class p)) x c = c (advance x (skip p (rest x))).
Proof.
  intros Hc. unfold Star. rewrite m_Repeat. apply repeat_class; [assumption|lia].
Qed.

Lemma plus_class (p : char16 -> bool) (c : continuation) (x : MatchState) :
  fails_before p c ->
  m input (Plus (Class p)) x c =
  match rest x with
  | a :: t => if p a then c (advance x (skip p t)) else None
  | [] => None
  end.
Proof.
  intros Hc. unfold Plus. rewrite m_Repeat.
  change (1 + S (length (rest x))) with (S (S (length (rest x)))).
  rewrite RepeatMatcher_S. cbv zeta. cbn [Nat.eqb andb Nat.pred].
  rewrite m_Class.
  destruct (rest x) as [|a t]; [reflexivity|].
  destruct (p a); [|reflexivity].
  rewrite repeat_class by (assumption || (simpl; lia)).
  reflexivity.
Qed.

End MatcherFacts.

Lemma run_skip (p : char16 -> bool) (s : jsstring) : run_of p s ++ skip p s = s.
Proof.
  induction s as [|a t IH]; simpl; [reflexivity|].
  destruct (p a); simpl; [now rewrite IH | reflexivity].
Qed.

Lemma skip_nil_iff (p : char16 -> bool) (s : jsstring) :
  skip p s = [] <-> forallb p s = true.
Proof.
  induction s as [|a t IH]; simpl; [tauto|].
  destruct (p a); simpl; [assumption|].
  split; discriminate.
Qed.

Lemma skip_all (p : char16 -> bool) (w s : jsstring) :
  forallb p w = true -> skip p (w ++ s) = skip p s.
Proof.
  induction w as [|a w IH]; simpl; [reflexivity|].
  destruct (p a); simpl; [assumption | discriminate].
Qed.

Lemma run_all (p : char16 -> bool) (w s : jsstring) :
  forallb p w = true -> run_of p (w ++ s) = w ++ run_of p s.
Proof.
  induction w as [|a w IH]; simpl; [reflexivity|].
  destruct (p a); simpl; [intros H; now rewrite IH | discriminate].
Qed.

Lemma run_of_forallb (p : char16 -> bool) (s : jsstring) :
  forallb p (run_of p s) = true.
Proof.
  induction s as [|a t IH]; simpl; [reflexivity|].
  destruct (p a) eqn:Hp; simpl; [now rewrite Hp | reflexivity].
Qed.

Lemma strip_app (l s : jsstring) : strip l (l ++ s) = Some s.
Proof.
  induction l as [|c l IH]; simpl; [reflexivity|].
  now rewrite N.eqb_refl.
Qed.

Lemma strip_Some (l s t : jsstring) : strip l s = Some t -> s = l ++ t.
Proof.
  revert s; induction l as [|c l IH]; intros s; simpl.
  - congruence.
  - destruct s as [|a s]; [discriminate|].
    destruct (a =? c)%N eqn:E; [|discriminate].
    apply N.eqb_eq in E. subst a. intros H. now rewrite (IH _ H).
Qed.

Lemma firstn_prefix (pre suf : jsstring) :
  firstn (length (pre ++ suf) - length suf) (pre ++ suf) = pre.
Proof.
  rewrite length_app, Nat.add_sub.
  rewrite firstn_app, Nat.sub_diag, firstn_all. simpl. apply app_nil_r.
Qed.

Lemma word_not_semicolon (a : char16) : word a = true -> (a =? 59)%N = false.
Proof.
  intros H. destruct (a =? 59)%N eqn:E; [|reflexivity].
  apply N.eqb_eq in E. subst a. discriminate H.
Qed.

Lemma m_data_url (s : jsstring) :
  option_map (fun y => (captures y 1, captures y 2))
    (m s data_url_pattern {| rest := s; captures := fun _ => None |} Some)
  = option_map (fun f => (Some (fst f), Some (snd f))) (fields s).
Proof.
  unfold data_url_pattern, fields.
  set (x0 := {| rest := s; captures := fun _ => None |}).
  cbn [m]. change (rest x0) with s at 1. rewrite Nat.eqb_refl.
  rewrite m_chars. change (rest x0) with s.
  destruct (strip (lit "data:") s) as [s1|]; [|reflexivity].
  cbn [m]. rewrite m_chars. 
  change (rest (advance x0 s1)) with s1.
  destruct (strip (lit "image/") s1) as [s2|] eqn:Hs1; [|reflexivity].
  apply strip_Some in Hs1.
  rewrite plus_class.
  2:{ intros x a t Hx Ha. rewrite m_chars.
      change (rest (capture 1 (advance x0 s1) x)) with (rest x). rewrite Hx.
      change (lit ";base64,") with (59%N :: lit "base64,").
      cbn [strip]. now rewrite word_not_semicolon. }
  change (rest (advance (advance x0 s1) s2)) with s2.
  destruct s2 as [|a t]; [reflexivity|].
  destruct (word a); [|reflexivity].
  rewrite m_chars.
  change (rest (capture 1 _ _)) with (skip word t).
  destruct (strip (lit ";base64,") (skip word t)) as [d|]; [|reflexivity].
  rewrite star_class.
  2:{ intros x b u Hx _. change (rest (capture 2 _ x)) with (rest x).
      now rewrite Hx. }
  change (rest (advance (capture 1 _ _) d)) with d.
  change (rest (capture 2 _ _)) with (skip dot d).
  destruct (forallb dot d) eqn:Hd.
  - apply skip_nil_iff in Hd. rewrite Hd.
    cbn [option_map captures capture advance rest Nat.eqb fst snd length].
    rewrite Nat.sub_0_r, firstn_all. 
    rewrite Hs1.
    replace (lit "image/" ++ a :: t)
      with ((lit "image/" ++ a :: run_of word t) ++ skip word t)
      by (rewrite <- app_assoc; simpl; now rewrite run_skip).
    now rewrite firstn_prefix.
  - destruct (skip dot d) eqn:Hk; [|reflexivity].
    apply skip_nil_iff in Hk. congruence.
Qed.

Lemma m_not_at_start (s t : jsstring) (caps : nat -> option jsstring) :
  length t <> length s ->
  m s data_url_pattern {| rest := t; captures := caps |} Some = None.
Proof.
  intros H. unfold data_url_pattern. cbn [m rest].
  apply Nat.eqb_neq in H. now rewrite H.
Qed.

Lemma scan_later (s : jsstring) : forall t,
  length t < length s -> scan s data_url_pattern t = None.
Proof.
  induction t as [|a t IH]; intros H; cbn [scan].
  - rewrite m_not_at_start by lia. reflexivity.
  - rewrite m_not_at_start by lia. apply IH. simpl in H. lia.
Qed.

Lemma scan_start (s : jsstring) :
  scan s data_url_pattern s =
  m s data_url_pattern {| rest := s; captures := fun _ => None |} Some.
Proof.
  destruct s as [|a t]; cbn [scan].
  - now destruct (m _ _ _ _).
  - destruct (m _ _ _ _); [reflexivity|].
    apply scan_later. simpl. lia.
Qed.

Lemma parseDataUrl_fields {V : Type} (s : jsstring) :
  parseDataUrl (V:=V) s =
  match fields s with
  | Some (mt, d) => Ret {| mimeType := Some mt; data := Some d |}
  | None => Throw (JsError invalid_format_message)
  end.
Proof.
  unfold parseDataUrl, str_match. rewrite scan_start.
  pose proof (m_data_url s) as H.
  destruct (m s data_url_pattern _ Some) as [y|]; destruct (fields s) as [[mt d]|];
    simpl in H; try discriminate; [|reflexivity].
  injection H as H1 H2. simpl. now rewrite H1, H2.
Qed.

(** ** The language of the pattern and the left-to-right reading agree *)

Lemma fields_Some (s mt d : jsstring) :
  fields s = Some (mt, d) ->
  media_type mt /\ forallb dot d = true /\ s = encode mt d.
Proof.
  unfold fields, media_type, encode.
  destruct (strip (lit "data:") s) as [s1|] eqn:H0; [|discriminate].
  destruct (strip (lit "image/") s1) as [[|a t]|] eqn:H1; try discriminate.
  destruct (word a) eqn:Ha; [|discriminate].
  destruct (strip (lit ";base64,") (skip word t)) as [d'|] eqn:H2; [|discriminate].
  destruct (forallb dot d') eqn:Hd; [|discriminate].
  intros H; injection H as <- <-.
  apply strip_Some in H0, H1, H2.
  split; [|split].
  - exists (a :: run_of word t). repeat split; [discriminate|].
    simpl. now rewrite Ha, run_of_forallb.
  - assumption.
  - rewrite H0, H1, <- (run_skip word t) at 1. rewrite H2.
    reflexivity.
Qed.

Lemma fields_encode (w d : jsstring) :
  w <> [] -> forallb word w = true -> forallb dot d = true ->
  fields (encode (lit "image/" ++ w) d) = Some (lit "image/" ++ w, d).
Proof.
  intros Hne Hw Hd. unfold fields, encode.
  rewrite strip_app. rewrite <- app_assoc, strip_app.
  destruct w as [|a w]; [congruence|].
  simpl in Hw. apply andb_true_iff in Hw as [Ha Hw].
  rewrite <- app_comm_cons. rewrite Ha.
  rewrite skip_all by assumption.
  change (skip word (lit ";base64," ++ d)) with (lit ";base64," ++ d).
  rewrite strip_app, Hd.
  rewrite run_all by assumption.
  change (run_of word (lit ";base64," ++ d)) with (@nil char16).
  now rewrite app_nil_r.
Qed.

Lemma fields_None_iff (s : jsstring) :
  fields s = None <-> ~ matches_data_url s.
Proof.
  split.
  - intros Hnone (w & d & -> & Hne & Hw & Hd).
    change (lit "data:image/" ++ w ++ lit ";base64," ++ d)
      with (encode (lit "image/" ++ w) d) in Hnone.
    now rewrite fields_encode in Hnone.
  - intros Hno. destruct (fields s) as [[mt d]|] eqn:E; [|reflexivity].
    exfalso. apply Hno. apply fields_Some in E as ((w & -> & Hne & Hw) & Hd & ->).
    exists w, d. repeat split; assumption.
Qed.

Lemma base64_is_dot (c : char16) : base64_char c = true -> dot c = true.
Proof.
  intros H. unfold dot, line_terminator.
  destruct (c =? 10)%N eqn:E1; [apply N.eqb_eq in E1; subst; discriminate|].
  destruct (c =? 13)%N eqn:E2; [apply N.eqb_eq in E2; subst; discriminate|].
  destruct (c =? 8232)%N eqn:E3; [apply N.eqb_eq in E3; subst; discriminate|].
  destruct (c =? 8233)%N eqn:E4; [apply N.eqb_eq in E4; subst; discriminate|].
  reflexivity.
Qed.

Lemma base64_text_dot (d : jsstring) : base64_text d -> forallb dot d = true.
Proof.
  unfold base64_text. induction d as [|c d IH]; simpl; [reflexivity|].
  intros H. apply andb_true_iff in H as [Hc Hd].
  now rewrite (base64_is_dot c Hc), IH.
Qed.

(* ------------------------------------------------------------------ *)
(** ** The codec: [parseDataUrl] *)

(** C7.  For every media type of the form [image/\w+] and every base64
    text, decoding ["data:" + mimeType + ";base64," + data] returns
    exactly the pair of the media type and the data. *)
Theorem decode_encode_roundtrip {V : Type} (mt d : jsstring) :
  media_type mt -> base64_text d ->
  parseDataUrl (V:=V) (encode mt d) = Ret {| mimeType := Some mt; data := Some d |}.
Proof.
  intros (w & -> & Hne & Hw) Hd.
  rewrite parseDataUrl_fields, fields_encode; auto using base64_text_dot.
Qed.

Lemma decode_encode_roundtrip_witness :
  media_type (lit "image/png") /\ base64_text (lit "QUJD")
  /\ parseDataUrl (V:=unit) (encode (lit "image/png") (lit "QUJD"))
     = Ret {| mimeType := Some (lit "image/png"); data := Some (lit "QUJD") |}.
Proof.
  assert (Hm : media_type (lit "image/png")).
  { exists (lit "png"). split; [reflexivity|]. split; [discriminate | reflexivity]. }
  assert (Hd : base64_text (lit "QUJD")) by reflexivity.
  exact (conj Hm (conj Hd (decode_encode_roundtrip Hm Hd))).
Defined.

(** C8.  A string outside the language of the pattern makes [parseDataUrl]
    throw the error whose message describes the expected shape, and does
    nothing else: no console line, no remote call, no timer, no write. *)
Theorem decode_rejects_non_matching {V : Type} (s : jsstring) :
  ~ matches_data_url s ->
  parseDataUrl (V:=V) s
    = Throw (JsError (lit "Invalid image data URL format. Expected 'data:image/...;base64,...'"))
  /\ includes invalid_format_message (lit "'data:image/...;base64,...'")
  /\ forall remote st,
       perform (parseDataUrl (V:=V) s) remote st
       = {| result := Threw (JsError invalid_format_message); final := st; trace := [] |}.
Proof.
  intros H. apply fields_None_iff in H.
  rewrite parseDataUrl_fields, H. split; [reflexivity|]. split; [|reflexivity].
  exists (lit "Invalid image data URL format. Expected "), []. reflexivity.
Qed.

Lemma decode_rejects_non_matching_witness :
  ~ matches_data_url (lit "data:text/plain;base64,QUJD")
  /\ parseDataUrl (V:=unit) (lit "data:text/plain;base64,QUJD")
     = Throw (JsError (lit "Invalid image data URL format. Expected 'data:image/...;base64,...'")).
Proof.
  assert (H : ~ matches_data_url (lit "data:text/plain;base64,QUJD")).
  { apply fields_None_iff. reflexivity. }
  exact (conj H (proj1 (decode_rejects_non_matching (V:=unit) H))).
Defined.

(** C9, as the code has it.  A payload built by [parseDataUrl] has a media
    type of the form [image/\w+]; its data is the rest of the input after
    [;base64,], free of line terminators, and the input is the encoding of
    the two.  The data is not checked further. *)
Theorem decode_payload_shape {V : Type} (s : jsstring) (p : ImagePayload) :
  parseDataUrl (V:=V) s = Ret p ->
  exists mt d,
    p = {| mimeType := Some mt; data := Some d |}
    /\ media_type mt /\ forallb dot d = true /\ s = encode mt d.
Proof.
  rewrite parseDataUrl_fields.
  destruct (fields s) as [[mt d]|] eqn:E; [|discriminate].
  intros H; injection H as <-.
  apply fields_Some in E as (Hm & Hd & Hs).
  now exists mt, d.
Qed.

Lemma decode_payload_shape_witness :
  exists mt d,
    {| mimeType := Some (lit "image/png"); data := Some (lit "!") |}
      = {| mimeType := Some mt; data := Some d |}
    /\ media_type mt /\ forallb dot d = true
    /\ lit "data:image/png;base64,!" = encode mt d.
Proof.
  apply (@decode_payload_shape unit (lit "data:image/png;base64,!")).
  reflexivity.
Defined.

(** C9, as stated, fails: the empty data is accepted. *)
Lemma decode_empty_data_counterexample :
  parseDataUrl (V:=unit) (lit "data:image/png;base64,")
    = Ret {| mimeType := Some (lit "image/png"); data := Some [] |}
  /\ ~ payload_invariant {| mimeType := Some (lit "image/png"); data := Some [] |}.
Proof.
  split; [reflexivity|].
  intros (_ & d & Hd & Hne & _). simpl in Hd. congruence.
Qed.

(* ------------------------------------------------------------------ *)
(** ** The orchestrator: [generateProductScene] *)

Section ServiceFacts.

Context {V : Type}.
Variable JSON_stringify : V -> stringified.


Lemma perform_bind {A B : Type} (p : Proc V A) (f : A -> Proc V B) remote :
  forall s,
  perform (bind p f) remote s =
  match result (perform p remote s) with
  | Returned a =>
    prepend (trace (perform p remote s)) (perform (f a) remote (final (perform p remote s)))
  | Threw e =>
    {| result := Threw e; final := final (perform p remote s);
       trace := trace (perform p remote s) |}
  end.
Proof.
  induction p as [a|e|args k IH|params k IH|ms k IH|k IH|a k IH]; intros s; cbn [bind perform].
  - simpl. now destruct (perform (f a) remote s).
  - reflexivity.
  - rewrite IH. cbn [emit result final trace]. now destruct (result (perform k remote s)).
  - rewrite IH. cbn [emit result final trace]. now destruct (result (perform (k (remote params)) remote s)).
  - rewrite IH. cbn [emit result final trace]. now destruct (result (perform k remote s)).
  - apply IH.
  - rewrite IH. cbn [emit result final trace]. now destruct (result (perform k remote (assign a s))).
Qed.

Lemma perform_try_catch {A : Type} (p : Proc V A) (h : thrown V -> Proc V A) remote :
  forall s,
  perform (try_catch p h) remote s =
  match result (perform p remote s) with
  | Returned a => perform p remote s
  | Threw e =>
    prepend (trace (perform p remote s)) (perform (h e) remote (final (perform p remote s)))
  end.
Proof.
  induction p as [a|e|args k IH|params k IH|ms k IH|k IH|a k IH]; intros s; cbn [try_catch perform].
  - reflexivity.
  - simpl. now destruct (perform (h e) remote s).
  - rewrite IH. cbn [emit result final trace]. now destruct (result (perform k remote s)).
  - rewrite IH. cbn [emit result final trace]. now destruct (result (perform (k (remote params)) remote s)).
  - rewrite IH. cbn [emit result final trace]. now destruct (result (perform k remote s)).
  - apply IH.
  - rewrite IH. cbn [emit result final trace]. now destruct (result (perform k remote (assign a s))).
Qed.

(** X17.  When the [try] block of [generateProductScene] throws an [Error],
    or a value for which [JSON.stringify] returns, the caller receives one
    [Error] whose message is the fixed prefix followed by the message of
    the cause, by its JSON text, or by [undefined] when [JSON.stringify]
    returned [undefined]. *)
Theorem rendered_failures_are_wrapped (p q prompt : jsstring) remote (s : AppState)
    (cause : thrown V) (details : jsstring) :
  result (perform (generateProductScene_try p q prompt) remote s) = Threw cause ->
  match cause with
  | JsError message => details = message
  | JsValue v => JSON_stringify v = Rendered details
                 \/ (JSON_stringify v = NotRendered /\ details = lit "undefined")
  end ->
  result (perform (generateProductScene JSON_stringify p q prompt) remote s)
  = Threw (JsError (lit "The AI model failed to generate an image. Details: "
                      ++ details)).
Proof.
  intros H Hd. unfold generateProductScene. rewrite perform_try_catch, H.
  unfold generateProductScene_catch, errorMessage_of.
  destruct cause as [message|v].
  - subst details. reflexivity.
  - cbn [bind console_error perform prepend emit result].
    destruct Hd as [Hd | [Hd ->]]; rewrite Hd; reflexivity.
Qed.

(** When [JSON.stringify] throws on the cause, its [TypeError] is what the
    caller receives. *)
Lemma stringify_failure_escapes (p q prompt : jsstring) remote (s : AppState)
    (v : V) (message : jsstring) :
  result (perform (generateProductScene_try p q prompt) remote s) = Threw (JsValue v) ->
  JSON_stringify v = Raises message ->
  result (perform (generateProductScene JSON_stringify p q prompt) remote s)
  = Threw (JsError message).
Proof.
  intros H Hd. unfold generateProductScene. rewrite perform_try_catch, H.
  unfold generateProductScene_catch, errorMessage_of.
  cbn [bind console_error perform prepend emit result].
  rewrite Hd. reflexivity.
Qed.

Lemma picked_eq (r : GenerateContentResponse) :
  match imagePartFromResponse r with
  | Some part => inlineData part
  | None => None
  end = picked r.
Proof.
  unfold imagePartFromResponse, picked, first_candidate_parts.
  destruct (candidates r) as [[|c cs]|]; try reflexivity. simpl.
  destruct (content c) as [ct|]; [|reflexivity].
  destruct (parts ct); reflexivity.
Qed.

Lemma picked_none (r : GenerateContentResponse) :
  no_inline_data r -> picked r = None.
Proof.
  unfold no_inline_data, picked.
  induction 1 as [|part ps Hp _ IH]; simpl; [reflexivity|].
  unfold has_inlineData at 1. rewrite Hp. exact IH.
Qed.

Lemma processGeminiResponse_picked (r : GenerateContentResponse) :
  processGeminiResponse (V:=V) r =
  match picked r with
  | Some blob => Ret (data_url_of blob)
  | None =>
    ConsoleError [LogString (Some (lit "API did not return an image. Response:"));
                  LogString (text r)]
      (Throw (JsError (no_image_message (text r))))
  end.
Proof.
  unfold processGeminiResponse. rewrite picked_eq.
  destruct (picked r); reflexivity.
Qed.

Lemma generateProductScene_valid (p q prompt : jsstring) (pp qp : ImagePayload) :
  parseDataUrl (V:=V) p = Ret pp -> parseDataUrl (V:=V) q = Ret qp ->
  generateProductScene JSON_stringify p q prompt
  = GenerateContent (buildRequest pp qp prompt) (scene_after JSON_stringify).
Proof.
  intros Hp Hq. unfold generateProductScene, generateProductScene_try.
  rewrite Hp. cbn [bind]. rewrite Hq. reflexivity.
Qed.

Lemma generateProductScene_invalid (p q prompt : jsstring) :
  ~ matches_data_url p \/ ~ matches_data_url q ->
  generateProductScene JSON_stringify p q prompt
  = generateProductScene_catch JSON_stringify (JsError invalid_format_message).
Proof.
  intros H. unfold generateProductScene, generateProductScene_try.
  rewrite !parseDataUrl_fields.
  destruct (fields p) as [[mt d]|] eqn:Ep; [|reflexivity].
  destruct H as [H|H]; apply fields_None_iff in H; [congruence|].
  rewrite H. reflexivity.
Qed.

Lemma generateProductScene_catch_throws (error : thrown V) :
  generateProductScene_catch JSON_stringify error
  = say [unrecoverable error]
      (Throw (JsError (generation_failed_message JSON_stringify error))).
Proof.
  unfold generateProductScene_catch, generation_failed_message, say, unrecoverable.
  cbn [bind console_error fold_right].
  now destruct (errorMessage_of JSON_stringify error).
Qed.

Lemma scene_after_fails (o : settled V) :
  fails o ->
  scene_after JSON_stringify o
  = say (service_lines o)
      (Throw (JsError (generation_failed_message JSON_stringify (cause o)))).
Proof.
  destruct o as [r|e]; intros H; unfold scene_after, service_lines, cause.
  - cbn [bind]. rewrite processGeminiResponse_picked, (picked_none H).
    cbn [try_catch]. now rewrite generateProductScene_catch_throws.
  - cbn [bind try_catch]. apply generateProductScene_catch_throws.
Qed.

Lemma scene_after_image (r : GenerateContentResponse) (blob : ImagePayload) :
  picked r = Some blob ->
  scene_after JSON_stringify (Fulfilled r) = Ret (data_url_of blob).
Proof.
  intros H. unfold scene_after. cbn [bind].
  rewrite processGeminiResponse_picked, H. reflexivity.
Qed.

End ServiceFacts.

(** ** The event loop *)

Section LoopFacts.

Context {V : Type}.
Variable JSON_stringify : V -> stringified.

Lemma bind_say {A B : Type} (lines : list (list (logarg V))) (k : Proc V A)
    (f : A -> Proc V B) :
  bind (say lines k) f = say lines (bind k f).
Proof. induction lines as [|l lines IH]; simpl; [reflexivity | now rewrite IH]. Qed.

Lemma try_catch_say {A : Type} (lines : list (list (logarg V))) (k : Proc V A)
    (h : thrown V -> Proc V A) :
  try_catch (say lines k) h = say lines (try_catch k h).
Proof. induction lines as [|l lines IH]; simpl; [reflexivity | now rewrite IH]. Qed.

Lemma run_say (lines : list (list (logarg V))) (k : Proc V unit) (w : World V) :
  run (say lines k) w = (fst (run k w), map (@Logged V) lines ++ snd (run k w)).
Proof.
  induction lines as [|l lines IH]; simpl.
  - now destruct (run k w).
  - now rewrite IH.
Qed.

Lemma cancelled_announce (n : N) (w : World V) : cancelled (announce n w) = cancelled w.
Proof. unfold announce. now destruct (1 <? n)%N. Qed.

(** An iteration that starts with valid images parks at the remote call. *)
Lemma run_attempt_valid (fuel : nat) (n : N) (p q prompt : jsstring)
    (pp qp : ImagePayload) (w : World V) :
  parseDataUrl (V:=V) p = Ret pp -> parseDataUrl (V:=V) q = Ret qp ->
  (n <=? MAX_ATTEMPTS)%N = true -> cancelled w = false ->
  run (attempts JSON_stringify (S fuel) n p q prompt) w
  = (park (AwaitingResponse (attempt_after JSON_stringify fuel n p q prompt)) (announce n w),
     status n ++ [Called (buildRequest pp qp prompt)]).
Proof.
  intros Hp Hq Hn Hc. unfold cancelled in Hc. cbn [attempts]. rewrite Hn.
  cbn [run]. rewrite Hc.
  unfold attempt_try, announce, status.
  rewrite generateProductScene_valid with (pp:=pp) (qp:=qp) by assumption.
  destruct (1 <? n)%N; reflexivity.
Qed.

(** With the flag set, the loop stops at its test. *)
Lemma run_attempts_cancelled (fuel : nat) (n : N) (p q prompt : jsstring) (w : World V) :
  cancelled w = true ->
  run (attempts JSON_stringify fuel n p q prompt) w = (w, []).
Proof.
  intros Hc. unfold cancelled in Hc. destruct fuel; cbn [attempts]; [reflexivity|].
  destruct (n <=? MAX_ATTEMPTS)%N; [|reflexivity].
  cbn [run]. now rewrite Hc.
Qed.

(** With the flag set, a settled call changes nothing. *)
Lemma run_attempt_after_cancelled (fuel : nat) (n : N) (p q prompt : jsstring)
    (o : settled V) (w : World V) :
  cancelled w = true ->
  run (attempt_after JSON_stringify fuel n p q prompt o) w = (w, service_log o).
Proof.
  intros Hc. unfold cancelled in Hc. unfold attempt_after, service_log, service_lines.
  destruct o as [r|e].
  - unfold scene_after. cbn [bind]. rewrite processGeminiResponse_picked.
    destruct (picked r); cbn [bind try_catch console_error];
      rewrite ?generateProductScene_catch_throws; simpl; now rewrite Hc.
  - unfold scene_after. cbn [bind try_catch].
    rewrite generateProductScene_catch_throws. simpl. now rewrite Hc.
Qed.

(** A failed attempt before the last starts the backoff timer. *)
Lemma run_attempt_after_failure (fuel : nat) (n : N) (p q prompt : jsstring)
    (o : settled V) (w : World V) :
  fails o -> cancelled w = false -> (n =? MAX_ATTEMPTS)%N = false ->
  run (attempt_after JSON_stringify fuel n p q prompt o) w
  = (park (AwaitingTimer (attempts JSON_stringify fuel (n + 1) p q prompt)) w,
     service_log o ++ [attempt_failed JSON_stringify n (cause o); Waited 2000]).
Proof.
  intros Hf Hc Hn. unfold cancelled in Hc. unfold attempt_after, service_log.
  rewrite scene_after_fails by assumption.
  rewrite bind_say, try_catch_say, bind_say, run_say.
  cbn [bind try_catch attempt_catch run]. rewrite Hc, Hn. reflexivity.
Qed.

(** The last failed attempt writes the terminal message. *)
Lemma run_attempt_after_last_failure (fuel : nat) (p q prompt : jsstring)
    (o : settled V) (w : World V) :
  fails o -> cancelled w = false ->
  run (attempt_after JSON_stringify fuel MAX_ATTEMPTS p q prompt o) w
  = (abandon w,
     service_log o ++ attempt_failed JSON_stringify MAX_ATTEMPTS (cause o) :: abandoned).
Proof.
  intros Hf Hc. unfold cancelled in Hc. unfold attempt_after, service_log.
  rewrite scene_after_fails by assumption.
  rewrite bind_say, try_catch_say, bind_say, run_say.
  cbn [bind try_catch attempt_catch run]. rewrite Hc. reflexivity.
Qed.

(** A successful attempt shows the image. *)
Lemma run_attempt_after_success (fuel : nat) (n : N) (p q prompt : jsstring)
    (r : GenerateContentResponse) (blob : ImagePayload) (w : World V) :
  picked r = Some blob -> cancelled w = false ->
  run (attempt_after JSON_stringify fuel n p q prompt (Fulfilled r)) w
  = (show_result (data_url_of blob) w, showed_result (data_url_of blob)).
Proof.
  intros Hr Hc. unfold cancelled in Hc. unfold attempt_after.
  rewrite scene_after_image with (blob:=blob) by assumption.
  cbn [bind try_catch on_result run]. rewrite Hc. reflexivity.
Qed.

End LoopFacts.

(* ------------------------------------------------------------------ *)
(** ** Sessions *)

Section SessionFacts.

Context {V : Type}.
Variable JSON_stringify : V -> stringified.

Lemma cancelled_tick (w : World V) : cancelled (tick w) = cancelled w.
Proof. reflexivity. Qed.

Lemma cancelled_start (w : World V) : cancelled (start w) = false.
Proof. reflexivity. Qed.

(** An iteration with a malformed image never reaches the remote call. *)
Lemma run_attempt_invalid (fuel : nat) (n : N) (p q prompt : jsstring) (w : World V) :
  ~ matches_data_url p \/ ~ matches_data_url q ->
  (n <=? MAX_ATTEMPTS)%N = true -> cancelled w = false ->
  run (attempts JSON_stringify (S fuel) n p q prompt) w
  = if (n =? MAX_ATTEMPTS)%N
    then (abandon (announce n w),
          status n ++ Logged (unrecoverable (JsError invalid_format_message))
            :: attempt_failed JSON_stringify n (JsError invalid_format_message)
            :: abandoned)
    else (park (AwaitingTimer (attempts JSON_stringify fuel (n + 1) p q prompt))
            (announce n w),
          status n ++ [Logged (unrecoverable (JsError invalid_format_message));
                       attempt_failed JSON_stringify n (JsError invalid_format_message);
                       Waited 2000]).
Proof.
  intros Hbad Hn Hc. unfold cancelled in Hc. cbn [attempts]. rewrite Hn.
  cbn [run]. rewrite Hc.
  unfold attempt_try, announce, status.
  rewrite generateProductScene_invalid by assumption.
  destruct (1 <? n)%N; cbn [bind try_catch set console_error generateProductScene_catch
    errorMessage_of attempt_catch run write component assign generationCancelledRef];
    rewrite Hc; destruct (n =? MAX_ATTEMPTS)%N; reflexivity.
Qed.

Lemma step_click_generate (w : World V) (p q : jsstring) :
  can_generate w p q ->
  step JSON_stringify w (User ClickMain)
  = Some (let r := run (attempts JSON_stringify 4 1 p q (prompt (component w))) (start w)
          in (fst r, started ++ snd r)).
Proof.
  intros (Hp & Hq & Hpn & Hqn & Hg & He).
  unfold step, enabled, handler, is_generating, is_error, handleGenerate.
  rewrite Hp, Hq.
  destruct p as [|c p]; [congruence|]. destruct q as [|c' q]; [congruence|].
  destruct (appState (component w)); try congruence; reflexivity.
Qed.

Lemma step_settles (w : World V) (k : settled V -> Proc V unit) (id : nat) (o : settled V) :
  id = fresh w ->
  step JSON_stringify (park (AwaitingResponse k) w) (Settles id o)
  = Some (run (k o) (tick w)).
Proof. intros ->. unfold step. cbn [park pending take]. now rewrite Nat.eqb_refl. Qed.

Lemma step_fires (w : World V) (k : Proc V unit) (id : nat) :
  id = fresh w ->
  step JSON_stringify (park (AwaitingTimer k) w) (Fires id)
  = Some (run k (tick w)).
Proof. intros ->. unfold step. cbn [park pending take]. now rewrite Nat.eqb_refl. Qed.

Lemma exec_cons (w : World V) (e : Event V) (es : list (Event V)) :
  exec JSON_stringify w (e :: es) =
  match step JSON_stringify w e with
  | None => None
  | Some (w1, t1) =>
    match exec JSON_stringify w1 es with
    | None => None
    | Some (w2, t2) => Some (w2, t1 ++ t2)
    end
  end.
Proof. reflexivity. Qed.


Lemma exec_nil (w : World V) : exec JSON_stringify w [] = Some (w, []).
Proof. reflexivity. Qed.

(** The world and the trace of a session whose three calls fail. *)
Lemma exhaustion_run (w : World V) (p q : jsstring) (pp qp : ImagePayload)
    (o1 o2 o3 : settled V) :
  can_generate w p q ->
  parseDataUrl (V:=V) p = Ret pp -> parseDataUrl (V:=V) q = Ret qp ->
  fails o1 -> fails o2 -> fails o3 ->
  exec JSON_stringify w
    [User ClickMain;
     Settles (fresh w) o1; Fires (1 + fresh w);
     Settles (2 + fresh w) o2; Fires (3 + fresh w);
     Settles (4 + fresh w) o3]
  = Some
      (abandon (tick (announce 3 (tick (tick (announce 2 (tick (tick (start w)))))))),
       started
       ++ ([Called (buildRequest pp qp (prompt (component w)))]
           ++ service_log o1
           ++ [attempt_failed JSON_stringify 1 (cause o1); Waited 2000])
       ++ (status 2 ++ [Called (buildRequest pp qp (prompt (component w)))])
       ++ (service_log o2 ++ [attempt_failed JSON_stringify 2 (cause o2); Waited 2000])
       ++ (status 3 ++ [Called (buildRequest pp qp (prompt (component w)))])
       ++ (service_log o3 ++ attempt_failed JSON_stringify 3 (cause o3) :: abandoned)
       ++ []).
Proof.
  intros Hw Hp Hq H1 H2 H3.
  rewrite exec_cons, (step_click_generate Hw). cbv zeta.
  rewrite run_attempt_valid with (pp:=pp) (qp:=qp) by (assumption || reflexivity).
  cbn [fst snd].
  rewrite exec_cons, step_settles by reflexivity.
  rewrite run_attempt_after_failure by (assumption || reflexivity).
  rewrite exec_cons, step_fires by reflexivity.
  rewrite run_attempt_valid with (pp:=pp) (qp:=qp) by (assumption || reflexivity).
  rewrite exec_cons, step_settles by reflexivity.
  rewrite run_attempt_after_failure by (assumption || reflexivity).
  rewrite exec_cons, step_fires by reflexivity.
  rewrite run_attempt_valid with (pp:=pp) (qp:=qp) by (assumption || reflexivity).
  rewrite exec_cons, step_settles by reflexivity.
  rewrite run_attempt_after_last_failure by (assumption || reflexivity).
  rewrite exec_nil.
  reflexivity.
Qed.


Lemma timeline_app (t u : list (Effect V)) : timeline (t ++ u) = timeline t ++ timeline u.
Proof. apply filter_app. Qed.

Lemma statuses_app (t u : list (Effect V)) : statuses (t ++ u) = statuses t ++ statuses u.
Proof.
  induction t as [|e t IH]; [reflexivity|].
  destruct e as [| | |[]|]; simpl; try assumption.
  destruct v; simpl; [now rewrite IH | assumption].
Qed.

Lemma timeline_service_log (o : settled V) : timeline (service_log o) = [].
Proof.
  unfold service_log. induction (service_lines o) as [|l ls IH]; [reflexivity | exact IH].
Qed.

Lemma statuses_service_log (o : settled V) : statuses (service_log o) = [].
Proof.
  unfold service_log. induction (service_lines o) as [|l ls IH]; [reflexivity | exact IH].
Qed.

(** C5.  When the remote call fails on all three attempts, the session ends
    in [Error] with the fixed terminal message, whatever the failures were.
    The remote call is issued three times; a timer of 2000 ms is started
    after the first and after the second failure and none after the third,
    and nothing of the session stays parked. *)
Theorem three_failures_end_in_error (w : World V) (p q : jsstring) (pp qp : ImagePayload)
    (o1 o2 o3 : settled V) :
  can_generate w p q ->
  parseDataUrl (V:=V) p = Ret pp -> parseDataUrl (V:=V) q = Ret qp ->
  fails o1 -> fails o2 -> fails o3 ->
  exists w' t,
    exec JSON_stringify w
      [User ClickMain;
       Settles (fresh w) o1; Fires (1 + fresh w);
       Settles (2 + fresh w) o2; Fires (3 + fresh w);
       Settles (4 + fresh w) o3]
    = Some (w', t)
    /\ appState (component w') = Error
    /\ error (component w')
       = Some (lit "Sorry, the AI couldn't create an image. Please try different images or a new prompt.")
    /\ isLoading (component w') = false
    /\ generatedImage (component w') = None
    /\ pending w' = pending w
    /\ timeline t
       = [Called (buildRequest pp qp (prompt (component w))); Waited 2000;
          Called (buildRequest pp qp (prompt (component w))); Waited 2000;
          Called (buildRequest pp qp (prompt (component w)))].
Proof.
  intros Hw Hp Hq H1 H2 H3.
  eexists _, _. split; [eapply exhaustion_run; eassumption|].
  repeat split.
  rewrite !timeline_app, !timeline_service_log. reflexivity.
Qed.


(** The world and the trace of a session whose third call succeeds. *)
Lemma third_attempt_run (w : World V) (p q : jsstring) (pp qp : ImagePayload)
    (o1 o2 : settled V) (r : GenerateContentResponse) (blob : ImagePayload) :
  can_generate w p q ->
  parseDataUrl (V:=V) p = Ret pp -> parseDataUrl (V:=V) q = Ret qp ->
  fails o1 -> fails o2 -> picked r = Some blob ->
  exec JSON_stringify w
    [User ClickMain;
     Settles (fresh w) o1; Fires (1 + fresh w);
     Settles (2 + fresh w) o2; Fires (3 + fresh w);
     Settles (4 + fresh w) (Fulfilled r)]
  = Some
      (show_result (data_url_of blob)
         (tick (announce 3 (tick (tick (announce 2 (tick (tick (start w)))))))),
       started
       ++ ([Called (buildRequest pp qp (prompt (component w)))]
           ++ service_log o1
           ++ [attempt_failed JSON_stringify 1 (cause o1); Waited 2000])
       ++ (status 2 ++ [Called (buildRequest pp qp (prompt (component w)))])
       ++ (service_log o2 ++ [attempt_failed JSON_stringify 2 (cause o2); Waited 2000])
       ++ (status 3 ++ [Called (buildRequest pp qp (prompt (component w)))])
       ++ showed_result (data_url_of blob)
       ++ []).
Proof.
  intros Hw Hp Hq H1 H2 H3.
  rewrite exec_cons, (step_click_generate Hw). cbv zeta.
  rewrite run_attempt_valid with (pp:=pp) (qp:=qp) by (assumption || reflexivity).
  cbn [fst snd].
  rewrite exec_cons, step_settles by reflexivity.
  rewrite run_attempt_after_failure by (assumption || reflexivity).
  rewrite exec_cons, step_fires by reflexivity.
  rewrite run_attempt_valid with (pp:=pp) (qp:=qp) by (assumption || reflexivity).
  rewrite exec_cons, step_settles by reflexivity.
  rewrite run_attempt_after_failure by (assumption || reflexivity).
  rewrite exec_cons, step_fires by reflexivity.
  rewrite run_attempt_valid with (pp:=pp) (qp:=qp) by (assumption || reflexivity).
  rewrite exec_cons, step_settles by reflexivity.
  rewrite run_attempt_after_success with (blob:=blob) by (assumption || reflexivity).
  rewrite exec_nil.
  reflexivity.
Qed.

(** C6.  When the remote call fails on the first two attempts and answers
    with an image on the third, the session ends in [Results] with that
    image after exactly three calls, and exactly two status texts were
    written on the way, naming attempts 2 and 3 of 3. *)
Theorem third_attempt_succeeds (w : World V) (p q : jsstring) (pp qp : ImagePayload)
    (o1 o2 : settled V) (r : GenerateContentResponse) (blob : ImagePayload) :
  can_generate w p q ->
  parseDataUrl (V:=V) p = Ret pp -> parseDataUrl (V:=V) q = Ret qp ->
  fails o1 -> fails o2 -> picked r = Some blob ->
  exists w' t,
    exec JSON_stringify w
      [User ClickMain;
       Settles (fresh w) o1; Fires (1 + fresh w);
       Settles (2 + fresh w) o2; Fires (3 + fresh w);
       Settles (4 + fresh w) (Fulfilled r)]
    = Some (w', t)
    /\ appState (component w') = Results
    /\ generatedImage (component w') = Some (data_url_of blob)
    /\ error (component w') = None
    /\ isLoading (component w') = false
    /\ pending w' = pending w
    /\ timeline t
       = [Called (buildRequest pp qp (prompt (component w))); Waited 2000;
          Called (buildRequest pp qp (prompt (component w))); Waited 2000;
          Called (buildRequest pp qp (prompt (component w)))]
    /\ statuses t
       = [lit "That didn't work, trying again... (Attempt 2/3)";
          lit "That didn't work, trying again... (Attempt 3/3)"].
Proof.
  intros Hw Hp Hq H1 H2 H3.
  eexists _, _. split; [eapply third_attempt_run; eassumption|].
  repeat split.
  - rewrite !timeline_app, !timeline_service_log. reflexivity.
  - rewrite !statuses_app, !statuses_service_log. reflexivity.
Qed.

(** The world and the trace of a session with a malformed image. *)
Lemma malformed_run (w : World V) (p q : jsstring) :
  can_generate w p q ->
  ~ matches_data_url p \/ ~ matches_data_url q ->
  exec JSON_stringify w [User ClickMain; Fires (fresh w); Fires (1 + fresh w)]
  = Some
      (abandon (announce 3 (tick (announce 2 (tick (start w))))),
       started
       ++ [Logged (unrecoverable (JsError invalid_format_message));
           attempt_failed JSON_stringify 1 (JsError invalid_format_message);
           Waited 2000]
       ++ (status 2
           ++ [Logged (unrecoverable (JsError invalid_format_message));
               attempt_failed JSON_stringify 2 (JsError invalid_format_message);
               Waited 2000])
       ++ (status 3
           ++ Logged (unrecoverable (JsError invalid_format_message))
           :: attempt_failed JSON_stringify 3 (JsError invalid_format_message)
           :: abandoned)
       ++ []).
Proof.
  intros Hw Hbad.
  rewrite exec_cons, (step_click_generate Hw). cbv zeta.
  rewrite run_attempt_invalid by (assumption || reflexivity).
  cbn [N.eqb Pos.eqb MAX_ATTEMPTS fst snd].
  rewrite exec_cons, step_fires by reflexivity.
  rewrite run_attempt_invalid by (assumption || reflexivity).
  change ((1 + 1 =? MAX_ATTEMPTS)%N) with false. cbv iota.
  rewrite exec_cons, step_fires by reflexivity.
  rewrite run_attempt_invalid by (assumption || reflexivity).
  change ((1 + 1 + 1 =? MAX_ATTEMPTS)%N) with true. cbv iota.
  rewrite exec_nil.
  reflexivity.
Qed.

(** C1, as the code has it.  With a malformed image [generateProductScene]
    throws the wrapped format error without issuing the remote call.  The
    loop treats it as any failure: three attempts, two backoff timers, and
    the page ends in [Error] with the fixed terminal message; the texts
    shown to the user never carry the format detail, which is logged. *)
Theorem malformed_image_is_retried (w : World V) (p q : jsstring) :
  can_generate w p q ->
  ~ matches_data_url p \/ ~ matches_data_url q ->
  (forall prompt remote s,
     perform (generateProductScene JSON_stringify p q prompt) remote s
     = {| result := Threw (JsError
            (lit "The AI model failed to generate an image. Details: "
               ++ lit "Invalid image data URL format. Expected 'data:image/...;base64,...'"));
          final := s;
          trace := [Logged (unrecoverable (JsError invalid_format_message))] |})
  /\ exists w' t,
       exec JSON_stringify w [User ClickMain; Fires (fresh w); Fires (1 + fresh w)]
       = Some (w', t)
       /\ appState (component w') = Error
       /\ error (component w')
          = Some (lit "Sorry, the AI couldn't create an image. Please try different images or a new prompt.")
       /\ isLoading (component w') = false
       /\ pending w' = pending w
       /\ timeline t = [Waited 2000; Waited 2000]
       /\ statuses t
          = [lit "That didn't work, trying again... (Attempt 2/3)";
             lit "That didn't work, trying again... (Attempt 3/3)";
             lit "Sorry, the AI couldn't create an image. Please try different images or a new prompt."].
Proof.
  intros Hw Hbad. split.
  - intros prompt remote s. now rewrite generateProductScene_invalid.
  - eexists _, _. split; [eapply malformed_run; eassumption|].
    repeat split.
Qed.

End SessionFacts.

(* ------------------------------------------------------------------ *)
(** ** Responses without an image *)

Section ResponseFacts.

Context {V : Type}.
Variable JSON_stringify : V -> stringified.

Lemma perform_say {A : Type} (lines : list (list (logarg V))) (k : Proc V A) remote s :
  perform (say lines k) remote s = prepend (map (@Logged V) lines) (perform k remote s).
Proof.
  induction lines as [|l lines IH]; simpl.
  - now destruct (perform k remote s).
  - now rewrite IH.
Qed.

(** C10.  With both images valid and a response whose first candidate has
    no part with inline data, [generateProductScene] throws: the message
    reaching the caller holds, between double quotes, the aggregate text of
    the response as it is, or the placeholder when the text is absent or
    empty.  No value is returned. *)
Theorem text_only_response_fails (p q prompt : jsstring) (pp qp : ImagePayload)
    (r : GenerateContentResponse) (s : AppState) :
  parseDataUrl (V:=V) p = Ret pp -> parseDataUrl (V:=V) q = Ret qp ->
  no_inline_data r ->
  exists shown,
    perform (generateProductScene JSON_stringify p q prompt) (fun _ => Fulfilled r) s
    = {| result := Threw (JsError
           (lit "The AI model failed to generate an image. Details: "
              ++ lit "The AI model responded with text instead of an image: "
              ++ dquote ++ shown ++ dquote));
         final := s;
         trace := Called (buildRequest pp qp prompt) :: service_log (Fulfilled r) |}
    /\ (forall t, text r = Some t -> t <> [] -> shown = t)
    /\ (text r = None \/ text r = Some [] ->
        shown = lit "No text response received.").
Proof.
  intros Hp Hq Hr.
  exists (or_else (text r) (lit "No text response received.")).
  split; [|split].
  - rewrite generateProductScene_valid with (pp:=pp) (qp:=qp) by assumption.
    cbn [perform]. rewrite scene_after_fails by exact Hr.
    rewrite perform_say. unfold prepend, emit. cbn [perform result final trace].
    rewrite app_nil_r. reflexivity.
  - intros t -> Ht. destruct t; [congruence | reflexivity].
  - intros [-> | ->]; reflexivity.
Qed.

End ResponseFacts.

(* ------------------------------------------------------------------ *)
(** ** Cancellation *)

Section CancelFacts.

Context {V : Type}.
Variable JSON_stringify : V -> stringified.

Lemma step_click_cancel (w : World V) :
  appState (component w) = Generating ->
  step JSON_stringify w (User ClickCancel) = Some (cancel w, cancel_writes).
Proof.
  intros H. unfold step, enabled, is_generating. now rewrite H.
Qed.

Lemma cancel_park (t : Suspended V) (w : World V) : cancel (park t w) = park t (cancel w).
Proof. reflexivity. Qed.

(** Cancelling during the first call: the page is [Idle] at once, and the
    settling of the call, however it settles, leaves the component state
    as the cancel action left it. *)
Lemma cancel_first_call (w : World V) (p q : jsstring) (pp qp : ImagePayload)
    (o : settled V) :
  can_generate w p q ->
  parseDataUrl (V:=V) p = Ret pp -> parseDataUrl (V:=V) q = Ret qp ->
  exec JSON_stringify w [User ClickMain; User ClickCancel]
  = Some (park (AwaitingResponse
                  (attempt_after JSON_stringify 3 1 p q (prompt (component w))))
               (cancel (start w)),
          started ++ [Called (buildRequest pp qp (prompt (component w)))]
          ++ cancel_writes ++ [])
  /\ exec JSON_stringify w [User ClickMain; User ClickCancel; Settles (fresh w) o]
     = Some (tick (cancel (start w)),
             started ++ [Called (buildRequest pp qp (prompt (component w)))]
             ++ cancel_writes ++ service_log o ++ []).
Proof.
  intros Hw Hp Hq.
  assert (H2 : exec JSON_stringify w [User ClickMain; User ClickCancel]
    = Some (park (AwaitingResponse
                  (attempt_after JSON_stringify 3 1 p q (prompt (component w))))
               (cancel (start w)),
          started ++ [Called (buildRequest pp qp (prompt (component w)))]
          ++ cancel_writes ++ [])).
  { rewrite exec_cons, (step_click_generate JSON_stringify Hw). cbv zeta.
    rewrite run_attempt_valid with (pp:=pp) (qp:=qp) by (assumption || reflexivity).
    cbn [fst snd].
    rewrite exec_cons, step_click_cancel by reflexivity.
    rewrite exec_nil, cancel_park. reflexivity. }
  split; [exact H2|].
  rewrite exec_cons, (step_click_generate JSON_stringify Hw). cbv zeta.
  rewrite run_attempt_valid with (pp:=pp) (qp:=qp) by (assumption || reflexivity).
  cbn [fst snd].
  rewrite exec_cons, step_click_cancel by reflexivity.
  rewrite exec_cons, cancel_park, step_settles by reflexivity.
  rewrite run_attempt_after_cancelled by reflexivity.
  rewrite exec_nil. reflexivity.
Qed.

(** The same during the second call, the case the specification names. *)
Lemma cancel_second_call (w : World V) (p q : jsstring) (pp qp : ImagePayload)
    (o1 o : settled V) :
  can_generate w p q ->
  parseDataUrl (V:=V) p = Ret pp -> parseDataUrl (V:=V) q = Ret qp ->
  fails o1 ->
  exec JSON_stringify w
    [User ClickMain; Settles (fresh w) o1; Fires (1 + fresh w); User ClickCancel]
  = Some (park (AwaitingResponse
                  (attempt_after JSON_stringify 2 2 p q (prompt (component w))))
               (cancel (announce 2 (tick (tick (start w))))),
          started
          ++ ([Called (buildRequest pp qp (prompt (component w)))]
              ++ service_log o1
              ++ [attempt_failed JSON_stringify 1 (cause o1); Waited 2000])
          ++ (status 2 ++ [Called (buildRequest pp qp (prompt (component w)))])
          ++ cancel_writes ++ [])
  /\ exec JSON_stringify w
       [User ClickMain; Settles (fresh w) o1; Fires (1 + fresh w); User ClickCancel;
        Settles (2 + fresh w) o]
     = Some (tick (cancel (announce 2 (tick (tick (start w))))),
             started
             ++ ([Called (buildRequest pp qp (prompt (component w)))]
                 ++ service_log o1
                 ++ [attempt_failed JSON_stringify 1 (cause o1); Waited 2000])
             ++ (status 2 ++ [Called (buildRequest pp qp (prompt (component w)))])
             ++ cancel_writes ++ service_log o ++ []).
Proof.
  intros Hw Hp Hq H1. split.
  - rewrite exec_cons, (step_click_generate JSON_stringify Hw). cbv zeta.
    rewrite run_attempt_valid with (pp:=pp) (qp:=qp) by (assumption || reflexivity).
    cbn [fst snd].
    rewrite exec_cons, step_settles by reflexivity.
    rewrite run_attempt_after_failure by (assumption || reflexivity).
    rewrite exec_cons, step_fires by reflexivity.
    rewrite run_attempt_valid with (pp:=pp) (qp:=qp) by (assumption || reflexivity).
    rewrite exec_cons, step_click_cancel by reflexivity.
    rewrite exec_nil, cancel_park. reflexivity.
  - rewrite exec_cons, (step_click_generate JSON_stringify Hw). cbv zeta.
    rewrite run_attempt_valid with (pp:=pp) (qp:=qp) by (assumption || reflexivity).
    cbn [fst snd].
    rewrite exec_cons, step_settles by reflexivity.
    rewrite run_attempt_after_failure by (assumption || reflexivity).
    rewrite exec_cons, step_fires by reflexivity.
    rewrite run_attempt_valid with (pp:=pp) (qp:=qp) by (assumption || reflexivity).
    rewrite exec_cons, step_click_cancel by reflexivity.
    rewrite exec_cons, cancel_park, step_settles by reflexivity.
    rewrite run_attempt_after_cancelled by reflexivity.
    rewrite exec_nil. reflexivity.
Qed.

(** Cancelling during the backoff: when the timer fires the loop stops at
    its test, and no further call is issued. *)
Lemma cancel_during_backoff (w : World V) (p q : jsstring) (pp qp : ImagePayload)
    (o1 : settled V) :
  can_generate w p q ->
  parseDataUrl (V:=V) p = Ret pp -> parseDataUrl (V:=V) q = Ret qp ->
  fails o1 ->
  exec JSON_stringify w
    [User ClickMain; Settles (fresh w) o1; User ClickCancel; Fires (1 + fresh w)]
  = Some (tick (cancel (tick (start w))),
          started
          ++ ([Called (buildRequest pp qp (prompt (component w)))]
              ++ service_log o1
              ++ [attempt_failed JSON_stringify 1 (cause o1); Waited 2000])
          ++ cancel_writes ++ [] ++ []).
Proof.
  intros Hw Hp Hq H1.
  rewrite exec_cons, (step_click_generate JSON_stringify Hw). cbv zeta.
  rewrite run_attempt_valid with (pp:=pp) (qp:=qp) by (assumption || reflexivity).
  cbn [fst snd].
  rewrite exec_cons, step_settles by reflexivity.
  rewrite run_attempt_after_failure by (assumption || reflexivity).
  rewrite exec_cons, step_click_cancel by reflexivity.
  rewrite exec_cons, cancel_park, step_fires by reflexivity.
  rewrite run_attempts_cancelled by reflexivity.
  rewrite exec_nil. reflexivity.
Qed.

End CancelFacts.

Section RestartFacts.

Context {V : Type}.
Variable JSON_stringify : V -> stringified.

Lemma start_park (t : Suspended V) (w : World V) : start (park t w) = park t (start w).
Proof. reflexivity. Qed.

Lemma can_generate_after_cancel (t : Suspended V) (w : World V) (p q : jsstring) :
  can_generate w p q -> can_generate (park t (cancel (start w))) p q.
Proof.
  intros (Hp & Hq & Hpn & Hqn & _ & _).
  repeat split; try assumption; discriminate.
Qed.

Lemma step_settles_older (w : World V) (k : settled V -> Proc V unit) (t : Suspended V)
    (id : nat) (o : settled V) :
  id = fresh w ->
  step JSON_stringify (park t (park (AwaitingResponse k) w)) (Settles id o)
  = Some (run (k o)
            {| component := component w;
               pending := (S (fresh w), t) :: pending w;
               fresh := S (S (fresh w)) |}).
Proof.
  intros ->. unfold step. cbn [park pending take fresh].
  replace (S (fresh w) =? fresh w) with false by (symmetry; apply Nat.eqb_neq; lia).
  now rewrite Nat.eqb_refl.
Qed.

(** Starting again before a cancelled call has settled clears the flag
    the cancelled loop is watching: when its call then answers with an
    image, the stale loop shows it, while the call of the new session is
    still parked. *)
Lemma restart_shows_stale_result (w : World V) (p q : jsstring) (pp qp : ImagePayload)
    (r : GenerateContentResponse) (blob : ImagePayload) :
  can_generate w p q ->
  parseDataUrl (V:=V) p = Ret pp -> parseDataUrl (V:=V) q = Ret qp ->
  picked r = Some blob ->
  exists w' t,
    exec JSON_stringify w
      [User ClickMain; User ClickCancel; User ClickMain; Settles (fresh w) (Fulfilled r)]
    = Some (w', t)
    /\ appState (component w') = Results
    /\ generatedImage (component w') = Some (data_url_of blob)
    /\ map fst (pending w') = S (fresh w) :: map fst (pending w).
Proof.
  intros Hw Hp Hq Hr.
  rewrite exec_cons, (step_click_generate JSON_stringify Hw). cbv zeta.
  rewrite run_attempt_valid with (pp:=pp) (qp:=qp) by (assumption || reflexivity).
  cbn [fst snd].
  rewrite exec_cons, step_click_cancel by reflexivity.
  rewrite cancel_park.
  rewrite exec_cons,
    (step_click_generate JSON_stringify (can_generate_after_cancel _ Hw)).
  cbv zeta.
  rewrite run_attempt_valid with (pp:=pp) (qp:=qp) by (assumption || reflexivity).
  cbn [fst snd].
  change (announce 1 ?x) with x.
  rewrite start_park.
  rewrite exec_cons, step_settles_older by reflexivity.
  rewrite run_attempt_after_success with (blob:=blob) by (assumption || reflexivity).
  rewrite exec_nil.
  eexists _, _. split; [reflexivity|]. repeat split.
Qed.

End RestartFacts.

Import Sample.

(** C3.  The cancel action moves the page to [Idle] at once, with the first
    call still parked.  The flag it sets is shared by every session and is
    cleared by the next [handleGenerate]: when the user starts again and
    the cancelled call then answers with an image, the cancelled loop shows
    that image and moves the page to [Results], while the call of the new
    session is still parked. *)
Theorem restart_revives_cancelled_call :
  exists w1 t1 w2 t2,
    exec only_errors (loaded person_url product_url) [User ClickMain; User ClickCancel]
    = Some (w1, t1)
    /\ appState (component w1) = Idle
    /\ generationCancelledRef (component w1) = true
    /\ map fst (pending w1) = [0]
    /\ exec only_errors w1 [User ClickMain; Settles 0 (Fulfilled image_response)]
       = Some (w2, t2)
    /\ map fst (pending w2) = [1]
    /\ appState (component w2) = Results
    /\ isLoading (component w2) = false
    /\ generatedImage (component w2) = Some (lit "data:image/png;base64,AAAA")
    /\ t2 = started
            ++ [Called (buildRequest person_payload product_payload PROMPT_OPTIONS_lifestyle)]
            ++ showed_result (lit "data:image/png;base64,AAAA").
Proof.
  eexists _, _, _, _.
  split; [vm_compute; reflexivity|].
  split; [reflexivity|]. split; [reflexivity|]. split; [reflexivity|].
  split; [vm_compute; reflexivity|].
  repeat split.
Qed.

Section ActionFacts.
Context {V : Type}.

(** C4, as the code has it.  In every state, so also with no session
    active, cancel sets the cancellation flag, returns the page to [Idle]
    and clears the loading flag, the error and the result, leaving the
    images and the prompt as they are; reset does the same and also clears
    both images and restores the default prompt.  Either leaves the state
    as it is exactly when the state already has these values. *)
Theorem cancel_and_reset_clear (s : AppState) :
  state_after (V:=V) handleCancel s
  = {| personImage := personImage s; productImage := productImage s;
       promptOption := promptOption s; prompt := prompt s;
       generatedImage := None; isLoading := false; error := None;
       appState := Idle; generationCancelledRef := true |}
  /\ state_after (V:=V) handleReset s
     = {| personImage := None; productImage := None;
          promptOption := lifestyle; prompt := PROMPT_OPTIONS_lifestyle;
          generatedImage := None; isLoading := false; error := None;
          appState := Idle; generationCancelledRef := true |}
  /\ (state_after (V:=V) handleCancel s = s
      <-> generatedImage s = None /\ isLoading s = false /\ error s = None
          /\ appState s = Idle /\ generationCancelledRef s = true)
  /\ (state_after (V:=V) handleReset s = s
      <-> personImage s = None /\ productImage s = None
          /\ promptOption s = lifestyle /\ prompt s = PROMPT_OPTIONS_lifestyle
          /\ generatedImage s = None /\ isLoading s = false /\ error s = None
          /\ appState s = Idle /\ generationCancelledRef s = true).
Proof.
  destruct s as [pe pr po pt gi il er st cr].
  unfold state_after. cbn [personImage productImage promptOption prompt generatedImage
    isLoading error appState generationCancelledRef].
  split; [reflexivity|]. split; [reflexivity|]. split.
  - change (final (perform (V:=V) handleCancel (fun _ => Rejected (JsError [])) 
        {| personImage := pe; productImage := pr; promptOption := po; prompt := pt;
           generatedImage := gi; isLoading := il; error := er; appState := st;
           generationCancelledRef := cr |}))
      with {| personImage := pe; productImage := pr; promptOption := po; prompt := pt;
              generatedImage := None; isLoading := false; error := None;
              appState := Idle; generationCancelledRef := true |}.
    split.
    + intros H. injection H as <- <- <- <- <-. repeat split.
    + intros (-> & -> & -> & -> & ->). reflexivity.
  - change (final (perform (V:=V) handleReset (fun _ => Rejected (JsError [])) 
        {| personImage := pe; productImage := pr; promptOption := po; prompt := pt;
           generatedImage := gi; isLoading := il; error := er; appState := st;
           generationCancelledRef := cr |}))
      with {| personImage := None; productImage := None;
          promptOption := lifestyle; prompt := PROMPT_OPTIONS_lifestyle;
          generatedImage := None; isLoading := false; error := None;
          appState := Idle; generationCancelledRef := true |}.
    split.
    + intros H. injection H as <- <- <- <- <- <- <- <- <-. repeat split.
    + intros (-> & -> & -> & -> & -> & -> & -> & -> & ->). reflexivity.
Qed.

End ActionFacts.

(** C4, as stated, fails: Start Over on the result page clears the page. *)
Lemma reset_after_results_counterexample :
  exists w1 t1 w2 t2,
    exec only_errors (loaded person_url product_url)
      [User ClickMain; Settles 0 (Fulfilled image_response)]
    = Some (w1, t1)
    /\ appState (component w1) = Results
    /\ pending w1 = []
    /\ step only_errors w1 (User ClickStartOver) = Some (w2, t2)
    /\ personImage (component w1) = Some person_url
    /\ personImage (component w2) = None
    /\ generatedImage (component w1) = Some (lit "data:image/png;base64,AAAA")
    /\ generatedImage (component w2) = None
    /\ state_after (V:=Empty_set) handleCancel (component w1) <> component w1
    /\ state_after (V:=Empty_set) handleReset (component w1) <> component w1.
Proof.
  eexists _, _, _, _.
  split; [vm_compute; reflexivity|].
  split; [reflexivity|]. split; [reflexivity|].
  split; [vm_compute; reflexivity|].
  repeat split; intros H; discriminate H.
Qed.

(* ------------------------------------------------------------------ *)
(** ** Instances *)

Lemma loaded_can_generate : can_generate (loaded person_url product_url) person_url product_url.
Proof. repeat split; discriminate. Qed.

Lemma text_file_not_data_url : ~ matches_data_url text_file_url.
Proof. apply fields_None_iff. reflexivity. Qed.

Lemma text_response_no_inline_data : no_inline_data text_response.
Proof. repeat constructor. Qed.

(** C2, at a cause that [JSON.stringify] cannot serialise.  The remote call
    rejects with a cyclic object: the [try] block throws it, [JSON.stringify]
    throws inside the [catch] block, and the caller receives that
    [TypeError], whose message does not start with the fixed prefix,
    instead of the wrapping [Error]. *)
Theorem unserialisable_cause_escapes :
  result (perform (generateProductScene_try person_url product_url [])
            rejects_with_cyclic initialState)
  = Threw (JsValue SelfReferring)
  /\ result (perform (generateProductScene stringify_cyclic person_url product_url [])
               rejects_with_cyclic initialState)
     = Threw (JsError (lit "Converting circular structure to JSON"))
  /\ forall details,
       result (perform (generateProductScene stringify_cyclic person_url product_url [])
                 rejects_with_cyclic initialState)
       <> Threw (JsError (lit "The AI model failed to generate an image. Details: "
                            ++ details)).
Proof.
  assert (E : result (perform (generateProductScene stringify_cyclic person_url product_url [])
                        rejects_with_cyclic initialState)
              = Threw (JsError (lit "Converting circular structure to JSON")))
    by (vm_compute; reflexivity).
  split; [vm_compute; reflexivity|]. split; [exact E|].
  intros details. rewrite E. cbn. discriminate.
Qed.

Lemma rendered_failures_are_wrapped_witness :
  result (perform (generateProductScene_try (V:=Empty_set) text_file_url product_url [])
            (fun _ => Fulfilled image_response) initialState)
  = Threw (JsError invalid_format_message)
  /\ result (perform (generateProductScene only_errors text_file_url product_url [])
               (fun _ => Fulfilled image_response) initialState)
     = Threw (JsError (lit "The AI model failed to generate an image. Details: Invalid image data URL format. Expected 'data:image/...;base64,...'")).
Proof.
  assert (H : result (perform (generateProductScene_try (V:=Empty_set) text_file_url product_url [])
            (fun _ => Fulfilled image_response) initialState)
  = Threw (JsError invalid_format_message)) by reflexivity.
  exact (conj H (@rendered_failures_are_wrapped Empty_set only_errors _ _ _ _ _ _ _ H eq_refl)).
Defined.

Lemma text_only_response_fails_witness :
  exists shown,
    result (perform (generateProductScene only_errors person_url product_url [])
              (fun _ => Fulfilled text_response) initialState)
    = Threw (JsError
        (lit "The AI model failed to generate an image. Details: "
           ++ lit "The AI model responded with text instead of an image: "
           ++ dquote ++ shown ++ dquote))
    /\ shown = lit "I can't do that".
Proof.
  destruct (@text_only_response_fails Empty_set only_errors person_url product_url []
              person_payload product_payload text_response initialState
              eq_refl eq_refl text_response_no_inline_data)
    as (shown & H & Ht & _).
  exists shown. split.
  - now rewrite H.
  - apply Ht; [reflexivity | discriminate].
Defined.

Lemma three_failures_end_in_error_witness :
  exists w' t,
    exec only_errors (loaded person_url product_url)
      [User ClickMain;
       Settles 0 (Rejected (JsError (lit "quota"))); Fires 1;
       Settles 2 (Fulfilled text_response); Fires 3;
       Settles 4 (Rejected (JsError (lit "offline")))]
    = Some (w', t)
    /\ appState (component w') = Error
    /\ timeline t
       = [Called (buildRequest person_payload product_payload PROMPT_OPTIONS_lifestyle);
          Waited 2000;
          Called (buildRequest person_payload product_payload PROMPT_OPTIONS_lifestyle);
          Waited 2000;
          Called (buildRequest person_payload product_payload PROMPT_OPTIONS_lifestyle)].
Proof.
  destruct (@three_failures_end_in_error Empty_set only_errors
              (loaded person_url product_url) person_url product_url
              person_payload product_payload
              (Rejected (JsError (lit "quota"))) (Fulfilled text_response)
              (Rejected (JsError (lit "offline")))
              loaded_can_generate eq_refl eq_refl I text_response_no_inline_data I)
    as (w' & t & He & Hs & _ & _ & _ & _ & Ht).
  exists w', t. repeat split; assumption.
Defined.

Lemma third_attempt_succeeds_witness :
  exists w' t,
    exec only_errors (loaded person_url product_url)
      [User ClickMain;
       Settles 0 (Rejected (JsError (lit "quota"))); Fires 1;
       Settles 2 (Fulfilled text_response); Fires 3;
       Settles 4 (Fulfilled image_response)]
    = Some (w', t)
    /\ appState (component w') = Results
    /\ generatedImage (component w') = Some (lit "data:image/png;base64,AAAA").
Proof.
  destruct (@third_attempt_succeeds Empty_set only_errors
              (loaded person_url product_url) person_url product_url
              person_payload product_payload
              (Rejected (JsError (lit "quota"))) (Fulfilled text_response)
              image_response
              {| mimeType := Some (lit "image/png"); data := Some (lit "AAAA") |}
              loaded_can_generate eq_refl eq_refl I text_response_no_inline_data eq_refl)
    as (w' & t & He & Hs & Hg & _).
  exists w', t. repeat split; assumption.
Defined.

Lemma loaded_text_file_can_generate :
  can_generate (loaded text_file_url product_url) text_file_url product_url.
Proof. repeat split; discriminate. Qed.

Lemma malformed_image_is_retried_witness :
  exists w' t,
    exec only_errors (loaded text_file_url product_url) [User ClickMain; Fires 0; Fires 1]
    = Some (w', t)
    /\ appState (component w') = Error
    /\ timeline t = [Waited 2000; Waited 2000].
Proof.
  destruct (@malformed_image_is_retried Empty_set only_errors
              (loaded text_file_url product_url) text_file_url product_url
              loaded_text_file_can_generate (or_introl text_file_not_data_url))
    as (_ & w' & t & He & Hs & _ & _ & _ & Ht & _).
  exists w', t. repeat split; assumption.
Defined.

(** C1, as stated, fails: the format error is not shown, a backoff timer is
    started, and two more attempts follow. *)
Lemma malformed_image_counterexample :
  ~ matches_data_url text_file_url
  /\ exists w1 t1 w3 t3,
       exec only_errors (loaded text_file_url product_url) [User ClickMain] = Some (w1, t1)
       /\ appState (component w1) = Generating
       /\ error (component w1) = None
       /\ map fst (pending w1) = [0]
       /\ timeline t1 = [Waited 2000]
       /\ exec only_errors w1 [Fires 0; Fires 1] = Some (w3, t3)
       /\ timeline t3 = [Waited 2000]
       /\ appState (component w3) = Error
       /\ error (component w3) = Some terminal_message
       /\ statuses (t1 ++ t3)
          = [retrying_message 2; retrying_message 3; terminal_message].
Proof.
  split; [exact text_file_not_data_url|].
  eexists _, _, _, _.
  split; [vm_compute; reflexivity|].
  split; [reflexivity|]. split; [reflexivity|]. split; [reflexivity|].
  split; [reflexivity|].
  split; [vm_compute; reflexivity|].
  repeat split.
Qed.


(* ------------------------------------------------------------------ *)
(** ** What the loop can do *)

Section LoopCases.

Context {V : Type}.
Variable JSON_stringify : V -> stringified.

Lemma picked_none_inv (r : GenerateContentResponse) :
  picked r = None -> no_inline_data r.
Proof.
  unfold picked, no_inline_data.
  induction (first_candidate_parts r) as [|part ps IH]; simpl; [constructor|].
  destruct (has_inlineData part) eqn:E; unfold has_inlineData in E;
    destruct (inlineData part) eqn:E2; try discriminate.
  all: intros H; try congruence.
  constructor; [assumption | now apply IH].
Qed.

(** A settled call either fails or carries an image. *)
Lemma settled_cases (o : settled V) :
  fails o \/ exists r blob, o = Fulfilled r /\ picked r = Some blob.
Proof.
  destruct o as [r|e]; [|now left].
  destruct (picked r) as [blob|] eqn:E.
  - right. now exists r, blob.
  - left. now apply picked_none_inv.
Qed.

(** Two data URLs either both decode or one is malformed. *)
Lemma decode_cases (p q : jsstring) :
  (exists pp qp, parseDataUrl (V:=V) p = Ret pp /\ parseDataUrl (V:=V) q = Ret qp)
  \/ (~ matches_data_url p \/ ~ matches_data_url q).
Proof.
  rewrite !parseDataUrl_fields.
  destruct (fields p) as [[mt d]|] eqn:Ep.
  - destruct (fields q) as [[mt' d']|] eqn:Eq.
    + left. eauto.
    + right. right. now apply fields_None_iff.
  - right. left. now apply fields_None_iff.
Qed.

Lemma data_url_of_nonempty (blob : ImagePayload) : data_url_of blob <> [].
Proof. discriminate. Qed.

Lemma loop_effect_quiet (w : World V) (lines : list (list (logarg V))) :
  loop_effect JSON_stringify w w (map (@Logged V) lines).
Proof.
  pose proof (@loop_effect_intro V JSON_stringify w 1 lines w [])
    as H.
  rewrite app_nil_r in H. apply H; [unfold MAX_ATTEMPTS; lia | constructor].
Qed.

(** An iteration resumed by the settling of its call. *)
Lemma run_attempt_after_effect (fuel : nat) (n : N) (p q prompt : jsstring)
    (o : settled V) (w : World V) :
  (1 <= n <= MAX_ATTEMPTS)%N ->
  loop_effect JSON_stringify w
    (fst (run (attempt_after JSON_stringify fuel n p q prompt o) w))
    (snd (run (attempt_after JSON_stringify fuel n p q prompt o) w)).
Proof.
  intros Hn.
  destruct (cancelled w) eqn:Hc.
  { rewrite run_attempt_after_cancelled by assumption. apply loop_effect_quiet. }
  destruct (settled_cases o) as [Hf | (r & blob & -> & Hr)].
  - destruct (n =? MAX_ATTEMPTS)%N eqn:E.
    + apply N.eqb_eq in E. subst n.
      rewrite run_attempt_after_last_failure by assumption. cbn [fst snd].
      pose proof (@loop_effect_intro V JSON_stringify w 1
        (service_lines o
           ++ [[LogString (Some (lit "Generation attempt " ++ show MAX_ATTEMPTS ++ lit " failed:"));
                LogString (Some (generation_failed_message JSON_stringify (cause o)))]])
        (abandon w) abandoned) as H.
      rewrite map_app, <- app_assoc in H. apply H; [unfold MAX_ATTEMPTS; lia | constructor].
    + rewrite run_attempt_after_failure by assumption. cbn [fst snd].
      pose proof (@loop_effect_intro V JSON_stringify w 1
        (service_lines o
           ++ [[LogString (Some (lit "Generation attempt " ++ show n ++ lit " failed:"));
                LogString (Some (generation_failed_message JSON_stringify (cause o)))]])
        (park (AwaitingTimer (attempts JSON_stringify fuel (n + 1) p q prompt)) w)
        [Waited 2000]) as H.
      rewrite map_app, <- app_assoc in H. apply H; [unfold MAX_ATTEMPTS; lia|].
      apply (tail_wait (JSON_stringify:=JSON_stringify)). constructor.
      apply N.eqb_neq in E. unfold MAX_ATTEMPTS in *. lia.
  - rewrite run_attempt_after_success with (blob:=blob) by assumption. cbn [fst snd].
    pose proof (@loop_effect_intro V JSON_stringify w 1 []
      (show_result (data_url_of blob) w) (showed_result (data_url_of blob))) as H.
    apply H; [unfold MAX_ATTEMPTS; lia|].
    constructor. apply data_url_of_nonempty.
Qed.

(** The loop entered at its test. *)
Lemma run_attempts_effect (fuel : nat) (n : N) (p q prompt : jsstring) (w : World V) :
  (1 <= n <= MAX_ATTEMPTS)%N ->
  loop_effect JSON_stringify w
    (fst (run (attempts JSON_stringify fuel n p q prompt) w))
    (snd (run (attempts JSON_stringify fuel n p q prompt) w)).
Proof.
  intros Hn.
  destruct (cancelled w) eqn:Hc.
  { rewrite run_attempts_cancelled by assumption. apply (loop_effect_quiet w []). }
  destruct fuel as [|fuel]; [apply (loop_effect_quiet w [])|].
  assert (Hle : (n <=? MAX_ATTEMPTS)%N = true) by (apply N.leb_le; lia).
  destruct (decode_cases p q) as [(pp & qp & Hp & Hq) | Hbad].
  - rewrite run_attempt_valid with (pp:=pp) (qp:=qp) by assumption. cbn [fst snd].
    pose proof (@loop_effect_intro V JSON_stringify w n []
      (park (AwaitingResponse (attempt_after JSON_stringify fuel n p q prompt))
         (announce n w))
      [Called (buildRequest pp qp prompt)] Hn) as H.
    apply H. apply (tail_call (JSON_stringify:=JSON_stringify)).
    + now constructor.
    + now exists p, q, pp, qp, prompt.
  - rewrite run_attempt_invalid by assumption.
    destruct (n =? MAX_ATTEMPTS)%N eqn:E; cbn [fst snd].
    + pose proof (@loop_effect_intro V JSON_stringify w n
        [unrecoverable (JsError invalid_format_message);
         [LogString (Some (lit "Generation attempt " ++ show n ++ lit " failed:"));
          LogString (Some (generation_failed_message JSON_stringify
                             (JsError invalid_format_message)))]]
        (abandon (announce n w)) abandoned Hn) as H.
      apply H. constructor.
    + pose proof (@loop_effect_intro V JSON_stringify w n
        [unrecoverable (JsError invalid_format_message);
         [LogString (Some (lit "Generation attempt " ++ show n ++ lit " failed:"));
          LogString (Some (generation_failed_message JSON_stringify
                             (JsError invalid_format_message)))]]
        (park (AwaitingTimer (attempts JSON_stringify fuel (n + 1) p q prompt))
           (announce n w))
        [Waited 2000] Hn) as H.
      apply H. apply (tail_wait (JSON_stringify:=JSON_stringify)). constructor.
      apply N.eqb_neq in E. unfold MAX_ATTEMPTS in *. lia.
Qed.


Lemma take_tasks (id : nat) (l others : list (nat * Suspended V)) (t : Suspended V) :
  Forall (fun it => loop_task JSON_stringify (snd it)) l ->
  take id l = Some (t, others) ->
  loop_task JSON_stringify t
  /\ Forall (fun it => loop_task JSON_stringify (snd it)) others.
Proof.
  revert others. induction l as [|[i u] l IH]; intros others Hall; simpl; [discriminate|].
  inversion Hall as [|? ? Hu Hl]; subst.
  destruct (i =? id).
  - intros H; injection H as <- <-. now split.
  - destruct (take id l) as [[t' r]|]; [|discriminate].
    intros H; injection H as <- <-.
    destruct (IH r Hl eq_refl) as [Ht Hr]. split; [assumption|].
    now constructor.
Qed.

Lemma take_nonempty (id : nat) (l others : list (nat * Suspended V)) (t : Suspended V) :
  take id l = Some (t, others) -> l <> [].
Proof. destruct l; [discriminate | discriminate]. Qed.

Lemma loop_effect_tasks (w w' : World V) (t : list (Effect V)) :
  loop_effect JSON_stringify w w' t -> tasks_ok JSON_stringify w ->
  tasks_ok JSON_stringify w'.
Proof.
  intros [n lines w1 tail Hn Htail] Hw. unfold tasks_ok in *.
  assert (Hb : Forall (fun it => loop_task JSON_stringify (snd it)) (pending (announce n w))).
  { unfold announce. now destruct (1 <? n)%N. }
  destruct Htail; try assumption; now constructor.
Qed.

Lemma loop_effect_frame (w w' : World V) (t : list (Effect V)) :
  loop_effect JSON_stringify w w' t ->
  personImage (component w') = personImage (component w)
  /\ productImage (component w') = productImage (component w)
  /\ promptOption (component w') = promptOption (component w)
  /\ prompt (component w') = prompt (component w)
  /\ generationCancelledRef (component w') = generationCancelledRef (component w).
Proof.
  intros [n lines w1 tail Hn Htail].
  destruct Htail; unfold announce; destruct (1 <? n)%N; repeat split.
Qed.

Lemma loop_effect_consistent (w w' : World V) (t : list (Effect V)) :
  loop_effect JSON_stringify w w' t ->
  appState (component w) <> Idle -> consistent w -> consistent w'.
Proof.
  intros [n lines w1 tail Hn Htail] Hidle (Hl & _ & Hr & He).
  assert (Hretry : (1 <? n)%N = true -> user_facing (retrying_message n)).
  { intros H. apply N.ltb_lt in H.
    assert (E : n = 2%N \/ n = 3%N) by (unfold MAX_ATTEMPTS in Hn; lia).
    unfold user_facing. destruct E as [-> | ->]; auto. }
  destruct w as [[pe pr po pt gi il er st cr] pend fr].
  unfold consistent, is_generating in *. cbn in Hl, Hr, Hidle, He.
  destruct Htail as [|task params Htask Hsent|task Htask| |url Hurl];
    unfold announce; destruct (1 <? n)%N; cbn;
    (split; [assumption || reflexivity|]);
    (split; [intros; congruence|]);
    (split; [try assumption; try discriminate; try (intros _; now exists url)|]);
    intros message Hm; try (now apply He); try discriminate;
    injection Hm as <-; try (now apply Hretry); unfold user_facing; auto.
Qed.

Lemma statuses_logged (lines : list (list (logarg V))) :
  statuses (map (@Logged V) lines) = [].
Proof. induction lines; [reflexivity | assumption]. Qed.

Lemma calls_app (t u : list (Effect V)) : calls (t ++ u) = calls t ++ calls u.
Proof.
  induction t as [|e t IH]; [reflexivity|].
  destruct e; simpl; now rewrite ?IH.
Qed.

Lemma calls_logged (lines : list (list (logarg V))) :
  calls (map (@Logged V) lines) = [].
Proof. induction lines; [reflexivity | assumption]. Qed.

Lemma loop_effect_statuses (w w' : World V) (t : list (Effect V)) :
  loop_effect JSON_stringify w w' t -> Forall user_facing (statuses t).
Proof.
  intros [n lines w1 tail Hn Htail].
  rewrite !statuses_app, statuses_logged.
  apply Forall_app. split.
  - assert (H : n = 1%N \/ n = 2%N \/ n = 3%N) by (unfold MAX_ATTEMPTS in Hn; lia).
    destruct H as [-> | [-> | ->]]; cbn;
      repeat apply Forall_cons; try apply Forall_nil; unfold user_facing; auto.
  - destruct Htail; cbn;
      repeat apply Forall_cons; try apply Forall_nil; unfold user_facing; auto.
Qed.

Lemma loop_effect_calls (w w' : World V) (t : list (Effect V)) :
  loop_effect JSON_stringify w w' t -> Forall (sent_by_scene (V:=V)) (calls t).
Proof.
  intros [n lines w1 tail Hn Htail].
  rewrite !calls_app, calls_logged.
  apply Forall_app. split.
  - unfold status. destruct (1 <? n)%N; constructor.
  - destruct Htail; cbn; repeat constructor. assumption.
Qed.


(** ** What every event keeps *)

Lemma consistent_others (w : World V) (others : list (nat * Suspended V)) :
  consistent w ->
  appState (component w) <> Idle \/ generationCancelledRef (component w) = true ->
  consistent {| component := component w; pending := others; fresh := fresh w |}.
Proof.
  intros (Hl & Hi & Hr & Hm) H. unfold consistent. cbn.
  split; [assumption|]. split; [|now repeat split].
  intros Hs. destruct (Hi Hs) as (Hg & He & _).
  split; [assumption|]. split; [assumption|].
  destruct H as [H|H]; [contradiction | now left].
Qed.

Lemma live_task_not_idle (w : World V) :
  consistent w -> pending w <> [] -> cancelled w = false ->
  appState (component w) <> Idle.
Proof.
  intros (_ & Hi & _) Hp Hc Hs. unfold cancelled in Hc.
  destruct (Hi Hs) as (_ & _ & [H|H]); congruence.
Qed.

Lemma resumed_invariant (w : World V) (others : list (nat * Suspended V))
    (p : Proc V unit) :
  tasks_ok JSON_stringify w -> consistent w -> pending w <> [] ->
  Forall (fun it => loop_task JSON_stringify (snd it)) others ->
  (cancelled w = true ->
   exists lines,
     run p {| component := component w; pending := others; fresh := fresh w |}
     = ({| component := component w; pending := others; fresh := fresh w |},
        map (@Logged V) lines)) ->
  loop_effect JSON_stringify
    {| component := component w; pending := others; fresh := fresh w |}
    (fst (resume w others p)) (snd (resume w others p)) ->
  tasks_ok JSON_stringify (fst (resume w others p))
  /\ consistent (fst (resume w others p))
  /\ Forall user_facing (statuses (snd (resume w others p)))
  /\ Forall (sent_by_scene (V:=V)) (calls (snd (resume w others p))).
Proof.
  intros Hw Hc Hne Hothers Hquiet Heff.
  split; [|split; [|split]].
  - eapply loop_effect_tasks; [exact Heff | exact Hothers].
  - destruct (cancelled w) eqn:E.
    + destruct (Hquiet eq_refl) as [lines Hrun]. unfold resume. rewrite Hrun. cbn [fst].
      apply consistent_others; [assumption | now right].
    + eapply loop_effect_consistent; [exact Heff | |].
      * change (appState (component w) <> Idle). now apply live_task_not_idle.
      * apply consistent_others; [assumption|]. left. now apply live_task_not_idle.
  - eapply loop_effect_statuses; exact Heff.
  - eapply loop_effect_calls; exact Heff.
Qed.

Lemma enabled_main_can_generate (w : World V) :
  enabled ClickMain (component w) = true -> is_error (component w) = false ->
  exists p q, can_generate w p q.
Proof.
  unfold enabled, is_generating, is_error, can_generate, truthy.
  destruct (personImage (component w)) as [[|c p]|]; rewrite ?andb_false_r; try discriminate.
  destruct (productImage (component w)) as [[|c' q]|]; rewrite ?andb_false_r; try discriminate.
  destruct (appState (component w)); try discriminate; intros _ _;
    exists (c :: p), (c' :: q); repeat split; discriminate.
Qed.

Lemma consistent_start (w : World V) : consistent w -> consistent (start w).
Proof.
  intros (Hl & Hi & Hr & He).
  destruct w as [[pe pr po pt gi il er st cr] pend fr].
  unfold consistent in *. cbn in *. repeat split; try assumption; discriminate.
Qed.

Lemma consistent_display (w w' : World V) :
  consistent w ->
  isLoading (component w') = isLoading (component w) ->
  appState (component w') = appState (component w) ->
  generatedImage (component w') = generatedImage (component w) ->
  error (component w') = error (component w) ->
  generationCancelledRef (component w') = generationCancelledRef (component w) ->
  pending w' = pending w ->
  consistent w'.
Proof.
  intros (Hl & Hi & Hr & He) El Es Eg Ee Ec Ep.
  unfold consistent, is_generating in *. rewrite El, Es, Eg, Ee, Ec, Ep.
  split; [exact Hl|]. split; [exact Hi|]. split; [exact Hr|]. assumption.
Qed.

Lemma consistent_idle (w : World V) :
  isLoading (component w) = false -> appState (component w) = Idle ->
  generatedImage (component w) = None -> error (component w) = None ->
  generationCancelledRef (component w) = true ->
  consistent w.
Proof.
  intros El Es Eg Ee Ec. unfold consistent, is_generating.
  rewrite El, Es, Eg, Ee, Ec.
  split; [reflexivity|]. split; [intros _; auto|]. split; [discriminate|].
  discriminate.
Qed.

Lemma step_invariant (w w' : World V) (e : Event V) (t : list (Effect V)) :
  tasks_ok JSON_stringify w -> consistent w ->
  step JSON_stringify w e = Some (w', t) ->
  tasks_ok JSON_stringify w' /\ consistent w'
  /\ Forall user_facing (statuses t)
  /\ Forall (sent_by_scene (V:=V)) (calls t).
Proof.
  intros Hw Hc Hstep. pose proof Hstep as Hstep0. destruct e as [a|id o|id].
  - unfold step in Hstep. destruct (enabled a (component w)) eqn:Hen; [|discriminate].
    injection Hstep as Hrun.
    destruct a as [ty res|ty|opt|value| | |].
    + (* FileLoaded *)
      destruct ty; cbn in Hrun; injection Hrun as <- <-;
        (split; [exact Hw|]); (split; [|split; cbn; apply Forall_nil]);
        (eapply consistent_display; [exact Hc|..]); reflexivity.
    + (* ClearImage *)
      destruct ty; cbn in Hrun; injection Hrun as <- <-;
        (split; [exact Hw|]); (split; [|split; cbn; apply Forall_nil]);
        (eapply consistent_display; [exact Hc|..]); reflexivity.
    + (* ChoosePrompt *)
      destruct opt; cbn in Hrun; injection Hrun as <- <-;
        (split; [exact Hw|]); (split; [|split; cbn; apply Forall_nil]);
        (eapply consistent_display; [exact Hc|..]); reflexivity.
    + (* EditPrompt *)
      cbn in Hrun; injection Hrun as <- <-.
      split; [exact Hw|]. split; [|split; cbn; apply Forall_nil].
      (eapply consistent_display; [exact Hc|..]); reflexivity.
    + (* ClickMain *)
      cbn [handler] in Hrun. destruct (is_error (component w)) eqn:Herr.
      * cbn in Hrun; injection Hrun as <- <-.
        split; [exact Hw|]. split; [|split; cbn; apply Forall_nil].
        now apply consistent_idle.
      * destruct (enabled_main_can_generate w Hen Herr) as (p & q & Hg).
        rewrite (step_click_generate JSON_stringify Hg) in Hstep0. cbv zeta in Hstep0.
        assert (Hb : (1 <= 1 <= MAX_ATTEMPTS)%N) by (unfold MAX_ATTEMPTS; lia).
        pose proof (@run_attempts_effect 4 1 p q (prompt (component w)) (start w) Hb)
          as Heff.
        remember (run (attempts JSON_stringify 4 1 p q (prompt (component w))) (start w))
          as r eqn:Er.
        clear Hrun Er. injection Hstep0 as <- <-.
        split; [|split; [|split]].
        -- eapply loop_effect_tasks; [exact Heff | exact Hw].
        -- eapply loop_effect_consistent; [exact Heff | discriminate |].
           now apply consistent_start.
        -- change (Forall user_facing (statuses (snd r))).
           eapply loop_effect_statuses; exact Heff.
        -- change (Forall (sent_by_scene (V:=V)) (calls (snd r))).
           eapply loop_effect_calls; exact Heff.
    + (* ClickCancel *)
      cbn in Hrun; injection Hrun as <- <-.
      split; [exact Hw|]. split; [|split; cbn; apply Forall_nil].
      now apply consistent_idle.
    + (* ClickStartOver *)
      cbn in Hrun; injection Hrun as <- <-.
      split; [exact Hw|]. split; [|split; cbn; apply Forall_nil].
      now apply consistent_idle.
  - (* Settles *)
    unfold step in Hstep.
    destruct (take id (pending w)) as [[[k|k] others]|] eqn:E; try discriminate.
    injection Hstep as Hrun.
    destruct (take_tasks _ Hw E) as [Htask Hothers].
    inversion Htask as [fuel n p q pr Hn Hk|]; subst k.
    assert (Hn' : (1 <= n <= MAX_ATTEMPTS)%N) by assumption.
    pose proof (@resumed_invariant w others (attempt_after JSON_stringify fuel n p q pr o)
                  Hw Hc (take_nonempty _ E) Hothers) as H.
    rewrite Hrun in H. cbn [fst snd] in H. apply H.
    + intros Hcan. exists (service_lines o).
      now rewrite run_attempt_after_cancelled.
    + unfold resume in Hrun.
      pose proof (@run_attempt_after_effect fuel n p q pr o
        {| component := component w; pending := others; fresh := fresh w |} Hn') as Heff.
      now rewrite Hrun in Heff.
  - (* Fires *)
    unfold step in Hstep.
    destruct (take id (pending w)) as [[[k|k] others]|] eqn:E; try discriminate.
    injection Hstep as Hrun.
    destruct (take_tasks _ Hw E) as [Htask Hothers].
    inversion Htask as [|fuel n p q pr Hn Hk]; subst k.
    assert (Hn' : (1 <= n <= MAX_ATTEMPTS)%N) by lia.
    pose proof (@resumed_invariant w others (attempts JSON_stringify fuel n p q pr)
                  Hw Hc (take_nonempty _ E) Hothers) as H.
    rewrite Hrun in H. cbn [fst snd] in H. apply H.
    + intros Hcan. exists [].
      now rewrite run_attempts_cancelled.
    + unfold resume in Hrun.
      pose proof (@run_attempts_effect fuel n p q pr
        {| component := component w; pending := others; fresh := fresh w |} Hn') as Heff.
      now rewrite Hrun in Heff.
Qed.

End LoopCases.


(* ------------------------------------------------------------------ *)
(** ** Every reachable page *)

Section ReachFacts.

Context {V : Type}.
Variable JSON_stringify : V -> stringified.

Lemma exec_invariant (es : list (Event V)) : forall (w w' : World V) (t : list (Effect V)),
  tasks_ok JSON_stringify w -> consistent w ->
  exec JSON_stringify w es = Some (w', t) ->
  tasks_ok JSON_stringify w' /\ consistent w'
  /\ Forall user_facing (statuses t)
  /\ Forall (sent_by_scene (V:=V)) (calls t).
Proof.
  induction es as [|e es IH]; intros w w' t Hw Hc Hex.
  - injection Hex as <- <-.
    split; [assumption|]. split; [assumption|]. split; constructor.
  - rewrite exec_cons in Hex.
    destruct (step JSON_stringify w e) as [[w1 t1]|] eqn:Hs; [|discriminate].
    destruct (exec JSON_stringify w1 es) as [[w2 t2]|] eqn:He; [|discriminate].
    injection Hex as <- <-.
    destruct (@step_invariant V JSON_stringify w w1 e t1 Hw Hc Hs) as (Hw1 & Hc1 & Hs1 & Hk1).
    destruct (IH _ _ _ Hw1 Hc1 He) as (Hw2 & Hc2 & Hs2 & Hk2).
    split; [assumption|]. split; [assumption|]. split.
    + rewrite statuses_app. apply Forall_app. now split.
    + rewrite calls_app. apply Forall_app. now split.
Qed.

Lemma initial_invariant :
  tasks_ok JSON_stringify (initialWorld (V:=V)) /\ consistent (initialWorld (V:=V)).
Proof.
  split; [constructor|].
  unfold consistent. cbn.
  split; [reflexivity|]. split; [auto|]. split; [discriminate|]. discriminate.
Qed.

Lemma reachable_invariant (w : World V) :
  reachable JSON_stringify w -> tasks_ok JSON_stringify w /\ consistent w.
Proof.
  intros (es & t & Hex).
  destruct initial_invariant as [H0 H1].
  destruct (@exec_invariant es _ _ _ H0 H1 Hex) as (Hw & Hc & _).
  now split.
Qed.

(** X7.  On every reachable page the loading flag is set exactly when the
    page is in the [Generating] state. *)
Theorem loading_iff_generating (w : World V) :
  reachable JSON_stringify w ->
  (isLoading (component w) = true <-> appState (component w) = Generating).
Proof.
  intros Hr. destruct (reachable_invariant Hr) as (_ & Hl & _).
  rewrite Hl. unfold is_generating.
  destruct (appState (component w)); split; (reflexivity || discriminate).
Qed.

(** X8.  On every reachable page in the [Idle] state there is no result, no
    error text and no loading flag. *)
Theorem idle_page_is_blank (w : World V) :
  reachable JSON_stringify w -> appState (component w) = Idle ->
  generatedImage (component w) = None /\ error (component w) = None
  /\ isLoading (component w) = false.
Proof.
  intros Hr Hs. destruct (reachable_invariant Hr) as (_ & Hl & Hi & _).
  destruct (Hi Hs) as (Hg & He & _).
  repeat split; try assumption.
  rewrite Hl. unfold is_generating. now rewrite Hs.
Qed.

(** X9.  On every reachable page in the [Results] state a non-empty result is
    stored and the loading flag is off. *)
Theorem results_page_has_image (w : World V) :
  reachable JSON_stringify w -> appState (component w) = Results ->
  isLoading (component w) = false
  /\ exists resultUrl,
       generatedImage (component w) = Some resultUrl /\ resultUrl <> [].
Proof.
  intros Hr Hs. destruct (reachable_invariant Hr) as (_ & Hl & _ & Hres & _).
  split; [|now apply Hres].
  rewrite Hl. unfold is_generating. now rewrite Hs.
Qed.

(** X10.  On every reachable page the error cell, when set, holds one of three
    fixed texts: the two retrying messages and the terminal message.  The
    detail of a failure is never displayed. *)
Theorem error_text_is_fixed (w : World V) (message : jsstring) :
  reachable JSON_stringify w -> error (component w) = Some message ->
  message = lit "That didn't work, trying again... (Attempt 2/3)"
  \/ message = lit "That didn't work, trying again... (Attempt 3/3)"
  \/ message = lit "Sorry, the AI couldn't create an image. Please try different images or a new prompt.".
Proof.
  intros Hr Hm. destruct (reachable_invariant Hr) as (_ & _ & _ & _ & He).
  exact (He message Hm).
Qed.

Lemma sent_by_scene_shape (params : GenerateContentParameters) :
  sent_by_scene (V:=V) params ->
  exists a b prompt,
    params = request_of a b prompt
    /\ image_payload a /\ image_payload b.
Proof.
  intros (p & q & pp & qp & prompt & Hp & Hq & ->).
  rewrite parseDataUrl_fields in Hp, Hq.
  destruct (fields p) as [[mt d]|] eqn:Ep; [|discriminate].
  destruct (fields q) as [[mt' d']|] eqn:Eq; [|discriminate].
  injection Hp as <-. injection Hq as <-.
  apply fields_Some in Ep as (Hm & Hd & _).
  apply fields_Some in Eq as (Hm' & Hd' & _).
  exists {| mimeType := Some mt; data := Some d |},
         {| mimeType := Some mt'; data := Some d' |}, prompt.
  split; [reflexivity|]. split; eexists _, _; eauto.
Qed.

(** X11.  Every remote call issued from a reachable page carries the fixed
    model name, both response modalities, and exactly three parts in this
    order: two inline images with a media type [image/\w+] and data free
    of line terminators, then the prompt text. *)
Theorem every_request_is_well_formed (w w' : World V) (es : list (Event V))
    (t : list (Effect V)) :
  reachable JSON_stringify w ->
  exec JSON_stringify w es = Some (w', t) ->
  Forall (fun params =>
            exists a b prompt,
              params = request_of a b prompt
              /\ image_payload a /\ image_payload b)
         (calls t).
Proof.
  intros Hr Hex. destruct (reachable_invariant Hr) as (Hw & Hc).
  destruct (@exec_invariant es _ _ _ Hw Hc Hex) as (_ & _ & _ & Hk).
  eapply Forall_impl; [|exact Hk]. intros params. apply sent_by_scene_shape.
Qed.

End ReachFacts.


(* ------------------------------------------------------------------ *)
(** ** What the loop does in the background *)

Section BackgroundFacts.

Context {V : Type}.
Variable JSON_stringify : V -> stringified.

Lemma only_logs_logged (lines : list (list (logarg V))) :
  only_logs (map (@Logged V) lines).
Proof.
  unfold only_logs. induction lines as [|l lines IH]; constructor; [|exact IH].
  now exists l.
Qed.

(** A background event resumes one parked task of the loop. *)
Lemma background_step (w w' : World V) (e : Event V) (t : list (Effect V)) :
  tasks_ok JSON_stringify w ->
  step JSON_stringify w e = Some (w', t) -> background e = true ->
  exists others,
    Forall (fun it => loop_task JSON_stringify (snd it)) others
    /\ loop_effect JSON_stringify
         {| component := component w; pending := others; fresh := fresh w |} w' t
    /\ (cancelled w = true ->
        w' = {| component := component w; pending := others; fresh := fresh w |}
        /\ only_logs t).
Proof.
  intros Hw Hstep Hb. destruct e as [a|id o|id]; [discriminate| |]; unfold step in Hstep;
    destruct (take id (pending w)) as [[[k|k] others]|] eqn:E; try discriminate;
    injection Hstep as Hrun; destruct (take_tasks _ Hw E) as [Htask Hothers];
    exists others; (split; [exact Hothers|]).
  - inversion Htask as [fuel n p q pr Hn Hk|]; subst k. unfold resume in Hrun. split.
    + pose proof (@run_attempt_after_effect V JSON_stringify fuel n p q pr o
        {| component := component w; pending := others; fresh := fresh w |} Hn) as Heff.
      now rewrite Hrun in Heff.
    + intros Hc. rewrite run_attempt_after_cancelled in Hrun by exact Hc.
      injection Hrun as <- <-. split; [reflexivity | apply only_logs_logged].
  - inversion Htask as [|fuel n p q pr Hn Hk]; subst k. unfold resume in Hrun. split.
    + assert (Hn' : (1 <= n <= MAX_ATTEMPTS)%N) by lia.
      pose proof (@run_attempts_effect V JSON_stringify fuel n p q pr
        {| component := component w; pending := others; fresh := fresh w |} Hn') as Heff.
      now rewrite Hrun in Heff.
    + intros Hc. rewrite run_attempts_cancelled in Hrun by exact Hc.
      injection Hrun as <- <-. split; [reflexivity | constructor].
Qed.

Lemma cancelled_frozen (es : list (Event V)) : forall (w w' : World V) (t : list (Effect V)),
  tasks_ok JSON_stringify w -> cancelled w = true ->
  forallb (@background V) es = true ->
  exec JSON_stringify w es = Some (w', t) ->
  component w' = component w /\ only_logs t.
Proof.
  induction es as [|e es IH]; intros w w' t Hw Hc Hb Hex.
  - injection Hex as <- <-. split; [reflexivity | constructor].
  - cbn [forallb] in Hb. apply andb_true_iff in Hb as [Hbe Hbs].
    rewrite exec_cons in Hex.
    destruct (step JSON_stringify w e) as [[w1 t1]|] eqn:Hs; [|discriminate].
    destruct (exec JSON_stringify w1 es) as [[w2 t2]|] eqn:He; [|discriminate].
    injection Hex as <- <-.
    destruct (background_step e Hw Hs Hbe) as (others & Hothers & _ & Hq).
    destruct (Hq Hc) as [-> Hl1].
    destruct (IH {| component := component w; pending := others; fresh := fresh w |}
                _ _ Hothers Hc Hbs He) as [Hcomp Hl2].
    split; [exact Hcomp|]. unfold only_logs in *. apply Forall_app. now split.
Qed.

(** X12.  On a reachable page whose cancellation flag is set, the settling of
    parked calls and the firing of parked timers, in any number and any
    order, leave the component state as it is and produce console lines
    only: no write, no call, no timer. *)
Theorem cancelled_page_is_frozen (w w' : World V) (es : list (Event V))
    (t : list (Effect V)) :
  reachable JSON_stringify w ->
  generationCancelledRef (component w) = true ->
  forallb (@background V) es = true ->
  exec JSON_stringify w es = Some (w', t) ->
  component w' = component w /\ only_logs t.
Proof.
  intros Hr Hc Hb Hex. destruct (reachable_invariant Hr) as [Hw _].
  exact (@cancelled_frozen es w w' t Hw Hc Hb Hex).
Qed.

Lemma inputs_kept (es : list (Event V)) : forall (w w' : World V) (t : list (Effect V)),
  tasks_ok JSON_stringify w ->
  forallb (@background V) es = true ->
  exec JSON_stringify w es = Some (w', t) ->
  personImage (component w') = personImage (component w)
  /\ productImage (component w') = productImage (component w)
  /\ promptOption (component w') = promptOption (component w)
  /\ prompt (component w') = prompt (component w)
  /\ generationCancelledRef (component w') = generationCancelledRef (component w).
Proof.
  induction es as [|e es IH]; intros w w' t Hw Hb Hex.
  - injection Hex as <- <-. repeat split.
  - cbn [forallb] in Hb. apply andb_true_iff in Hb as [Hbe Hbs].
    rewrite exec_cons in Hex.
    destruct (step JSON_stringify w e) as [[w1 t1]|] eqn:Hs; [|discriminate].
    destruct (exec JSON_stringify w1 es) as [[w2 t2]|] eqn:He; [|discriminate].
    injection Hex as <- <-.
    destruct (background_step e Hw Hs Hbe) as (others & Hothers & Heff & _).
    assert (Hw1 : tasks_ok JSON_stringify w1)
      by (eapply loop_effect_tasks; [exact Heff | exact Hothers]).
    destruct (loop_effect_frame Heff) as (E1 & E2 & E3 & E4 & E5).
    destruct (IH _ _ _ Hw1 Hbs He) as (F1 & F2 & F3 & F4 & F5).
    cbn [component] in E1, E2, E3, E4, E5.
    repeat split; congruence.
Qed.

(** X13.  From a reachable page, the settling of calls and the firing of
    timers never change the two uploaded images, the prompt selection, the
    prompt text, or the cancellation flag. *)
Theorem loop_keeps_inputs (w w' : World V) (es : list (Event V)) (t : list (Effect V)) :
  reachable JSON_stringify w ->
  forallb (@background V) es = true ->
  exec JSON_stringify w es = Some (w', t) ->
  personImage (component w') = personImage (component w)
  /\ productImage (component w') = productImage (component w)
  /\ promptOption (component w') = promptOption (component w)
  /\ prompt (component w') = prompt (component w)
  /\ generationCancelledRef (component w') = generationCancelledRef (component w).
Proof.
  intros Hr Hb Hex. destruct (reachable_invariant Hr) as [Hw _].
  exact (@inputs_kept es w w' t Hw Hb Hex).
Qed.

(** X14.  In the [Error] state no user action issues a remote call or enters
    [Generating]; with both images present the main button runs
    [handleReset], which clears them. *)
Theorem error_page_needs_reset (w : World V) :
  appState (component w) = Error ->
  (forall a w' t,
     step JSON_stringify w (User a) = Some (w', t) ->
     calls t = [] /\ appState (component w') <> Generating)
  /\ (truthy (personImage (component w)) = true ->
      truthy (productImage (component w)) = true ->
      step JSON_stringify w (User ClickMain) = Some (reset w, reset_writes)).
Proof.
  intros Hs. split.
  - intros a w' t Hstep. unfold step in Hstep.
    destruct (enabled a (component w)) eqn:Hen; [|discriminate].
    injection Hstep as Hrun.
    destruct a as [ty res|ty|opt|value| | |]; cbn [handler] in Hrun.
    + destruct ty; cbn in Hrun; injection Hrun as <- <-; cbn; rewrite Hs;
        split; (reflexivity || discriminate).
    + destruct ty; cbn in Hrun; injection Hrun as <- <-; cbn; rewrite Hs;
        split; (reflexivity || discriminate).
    + destruct opt; cbn in Hrun; injection Hrun as <- <-; cbn; rewrite Hs;
        split; (reflexivity || discriminate).
    + cbn in Hrun; injection Hrun as <- <-; cbn; rewrite Hs;
        split; (reflexivity || discriminate).
    + unfold is_error in Hrun. rewrite Hs in Hrun.
      cbn in Hrun; injection Hrun as <- <-; cbn. split; (reflexivity || discriminate).
    + cbn in Hen. unfold is_generating in Hen. rewrite Hs in Hen. discriminate.
    + cbn in Hrun; injection Hrun as <- <-; cbn. split; (reflexivity || discriminate).
  - intros Hp Hq. unfold step, enabled, handler, is_generating, is_error.
    rewrite Hs, Hp, Hq. reflexivity.
Qed.

End BackgroundFacts.


(* ------------------------------------------------------------------ *)
(** ** The service, whatever the remote answers *)

Section ServiceCases.

Context {V : Type}.
Variable JSON_stringify : V -> stringified.

Lemma fails_not_picked (r : GenerateContentResponse) (blob : ImagePayload) :
  fails (V:=V) (Fulfilled r) -> picked r = Some blob -> False.
Proof. intros Hf Hp. cbn in Hf. rewrite (picked_none Hf) in Hp. discriminate. Qed.

Lemma perform_after_fails (o : settled V) remote (s : AppState) :
  fails o ->
  perform (scene_after JSON_stringify o) remote s
  = {| result := Threw (JsError (generation_failed_message JSON_stringify (cause o)));
       final := s;
       trace := service_log o |}.
Proof.
  intros Hf. rewrite scene_after_fails by assumption. rewrite perform_say.
  unfold prepend. cbn [perform result final trace]. now rewrite app_nil_r.
Qed.

(** X1.  [generateProductScene] returns a value exactly when both data URLs
    decode and the remote call is fulfilled with a response whose first
    candidate has a part with inline data; the value is the data URL made
    of that part's media type and data. *)
Theorem scene_returns_only_images (p q prompt : jsstring) remote (s : AppState)
    (url : jsstring) :
  result (perform (generateProductScene JSON_stringify p q prompt) remote s) = Returned url
  <-> exists pp qp r blob,
        parseDataUrl (V:=V) p = Ret pp /\ parseDataUrl (V:=V) q = Ret qp
        /\ remote (buildRequest pp qp prompt) = Fulfilled r
        /\ picked r = Some blob
        /\ url = lit "data:" ++ interpolate (mimeType blob) ++ lit ";base64,"
                   ++ interpolate (data blob).
Proof.
  split.
  - destruct (decode_cases (V:=V) p q) as [(pp & qp & Hp & Hq) | Hbad].
    + rewrite generateProductScene_valid with (pp:=pp) (qp:=qp) by assumption.
      cbn [perform emit result].
      destruct (settled_cases (remote (buildRequest pp qp prompt)))
        as [Hf | (r & blob & Hr & Hb)].
      * rewrite perform_after_fails by assumption. discriminate.
      * rewrite Hr, scene_after_image with (blob:=blob) by assumption.
        cbn [perform result]. intros H; injection H as <-.
        now exists pp, qp, r, blob.
    + rewrite generateProductScene_invalid by assumption. discriminate.
  - intros (pp & qp & r & blob & Hp & Hq & Hr & Hb & ->).
    rewrite generateProductScene_valid with (pp:=pp) (qp:=qp) by assumption.
    cbn [perform emit result].
    now rewrite Hr, scene_after_image with (blob:=blob) by assumption.
Qed.

Lemma parseDataUrl_Ret_matches (u : jsstring) (payload : ImagePayload) :
  parseDataUrl (V:=V) u = Ret payload -> matches_data_url u.
Proof.
  rewrite parseDataUrl_fields.
  destruct (fields u) as [[mt d]|] eqn:E; [intros _ | discriminate].
  apply fields_Some in E as ((w & -> & Hne & Hw) & Hd & ->).
  exists w, d. repeat split; assumption.
Qed.

(** X2.  [generateProductScene] leaves the component state as it is and
    starts no timer.  When a data URL is malformed it issues no remote
    call: all it does is write one console line.  When both decode it
    issues exactly one remote call, first, with the request built from the
    two decoded images and the prompt; whatever else it does is console
    lines. *)
Theorem scene_is_stateless (p q prompt : jsstring) remote (s : AppState) :
  final (perform (generateProductScene JSON_stringify p q prompt) remote s) = s
  /\ (((~ matches_data_url p \/ ~ matches_data_url q)
       /\ trace (perform (generateProductScene JSON_stringify p q prompt) remote s)
          = [Logged (unrecoverable (V:=V) (JsError invalid_format_message))])
      \/ (matches_data_url p /\ matches_data_url q
          /\ exists pp qp lines,
               parseDataUrl (V:=V) p = Ret pp /\ parseDataUrl (V:=V) q = Ret qp
               /\ trace (perform (generateProductScene JSON_stringify p q prompt) remote s)
                  = Called (buildRequest pp qp prompt) :: map (@Logged V) lines)).
Proof.
  destruct (decode_cases (V:=V) p q) as [(pp & qp & Hp & Hq) | Hbad].
  - pose proof (parseDataUrl_Ret_matches _ Hp) as Mp.
    pose proof (parseDataUrl_Ret_matches _ Hq) as Mq.
    rewrite generateProductScene_valid with (pp:=pp) (qp:=qp) by assumption.
    cbn [perform emit final trace].
    destruct (settled_cases (remote (buildRequest pp qp prompt)))
      as [Hf | (r & blob & Hr & Hb)].
    + rewrite perform_after_fails by assumption. cbn [final trace].
      split; [reflexivity|]. right. split; [exact Mp|]. split; [exact Mq|].
      now exists pp, qp, (service_lines (remote (buildRequest pp qp prompt))).
    + rewrite Hr, scene_after_image with (blob:=blob) by assumption.
      cbn [perform final trace]. split; [reflexivity|]. right.
      split; [exact Mp|]. split; [exact Mq|]. now exists pp, qp, [].
  - rewrite generateProductScene_invalid by assumption.
    split; [reflexivity|]. left. split; [exact Hbad | reflexivity].
Qed.

(** X3.  The response parser returns the data URL of the first part of the
    first candidate that has inline data, whatever precedes it without
    inline data, whatever follows it, and whatever the other candidates
    and the aggregate text are. *)
Theorem first_inline_part_wins (r : GenerateContentResponse) (c : Candidate)
    (cs : list Candidate) (ct : Content) (pre post : list Part) (part : Part)
    (blob : ImagePayload) :
  candidates r = Some (c :: cs) -> content c = Some ct ->
  parts ct = Some (pre ++ part :: post) ->
  Forall (fun x => inlineData x = None) pre ->
  inlineData part = Some blob ->
  processGeminiResponse (V:=V) r
  = Ret (lit "data:" ++ interpolate (mimeType blob) ++ lit ";base64,"
           ++ interpolate (data blob)).
Proof.
  intros Hc Hct Hp Hpre Hb.
  unfold processGeminiResponse, imagePartFromResponse.
  rewrite Hc. cbn [nth_error]. rewrite Hct, Hp.
  assert (Hfind : find has_inlineData (pre ++ part :: post) = Some part).
  { clear Hp. induction Hpre as [|x pre Hx _ IH]; cbn.
    - unfold has_inlineData. now rewrite Hb.
    - unfold has_inlineData at 1. now rewrite Hx. }
  now rewrite Hfind, Hb.
Qed.

Lemma line_free_match (s : jsstring) :
  matches_data_url s -> forallb dot s = true.
Proof.
  intros (w & d & -> & _ & Hw & Hd).
  rewrite !forallb_app, Hd, andb_true_r.
  assert (Hword : forall c, word c = true -> dot c = true).
  { intros c Hc. unfold dot, line_terminator.
    destruct (c =? 10)%N eqn:E1; [apply N.eqb_eq in E1; subst; discriminate|].
    destruct (c =? 13)%N eqn:E2; [apply N.eqb_eq in E2; subst; discriminate|].
    destruct (c =? 8232)%N eqn:E3; [apply N.eqb_eq in E3; subst; discriminate|].
    destruct (c =? 8233)%N eqn:E4; [apply N.eqb_eq in E4; subst; discriminate|].
    reflexivity. }
  assert (Hw' : forallb dot w = true).
  { induction w as [|c w IH]; [reflexivity|]. cbn in Hw |- *.
    apply andb_true_iff in Hw as [Hc Hw]. now rewrite (Hword c Hc), IH. }
  now rewrite Hw'.
Qed.

(** X6.  A string with a line terminator (LF, CR, U+2028, U+2029) anywhere
    is rejected by [parseDataUrl]: base64 text wrapped over several lines
    is not accepted. *)
Theorem decode_rejects_line_terminators (s : jsstring) :
  existsb line_terminator s = true ->
  parseDataUrl (V:=V) s
  = Throw (JsError (lit "Invalid image data URL format. Expected 'data:image/...;base64,...'")).
Proof.
  intros H. rewrite parseDataUrl_fields.
  destruct (fields s) as [[mt d]|] eqn:E; [|reflexivity].
  exfalso.
  assert (Hm : matches_data_url s).
  { apply fields_Some in E as ((w & -> & Hne & Hw) & Hd & ->). now exists w, d. }
  apply line_free_match in Hm.
  apply existsb_exists in H as (c & Hin & Hc).
  rewrite forallb_forall in Hm. specialize (Hm c Hin).
  unfold dot in Hm. rewrite Hc in Hm. discriminate.
Qed.

(** X4.  When the picked part has a media type [image/\w+] and data free of
    line terminators, the data URL the response parser returns decodes
    back, by [parseDataUrl], to that part's media type and data. *)
Theorem generated_url_decodes (r : GenerateContentResponse) (blob : ImagePayload) :
  picked r = Some blob -> image_payload blob ->
  exists url,
    processGeminiResponse (V:=V) r = Ret url
    /\ parseDataUrl (V:=V) url = Ret blob.
Proof.
  intros Hp (mt & d & -> & (w & -> & Hne & Hw) & Hd).
  eexists. split.
  - rewrite processGeminiResponse_picked, Hp. reflexivity.
  - unfold data_url_of. cbn [mimeType data interpolate].
    rewrite parseDataUrl_fields.
    change (lit "data:" ++ (lit "image/" ++ w) ++ lit ";base64," ++ d)
      with (encode (lit "image/" ++ w) d).
    now rewrite fields_encode.
Qed.

(** X5.  When the picked part has no media type, the response parser still
    returns a value, [data:undefined;base64,...], and [parseDataUrl]
    rejects that value. *)
Theorem missing_media_type_is_not_decodable (r : GenerateContentResponse)
    (blob : ImagePayload) :
  picked r = Some blob -> mimeType blob = None ->
  exists url,
    processGeminiResponse (V:=V) r = Ret url
    /\ url = lit "data:undefined;base64," ++ interpolate (data blob)
    /\ parseDataUrl (V:=V) url = Throw (JsError invalid_format_message).
Proof.
  intros Hp Hm. eexists. split; [|split].
  - rewrite processGeminiResponse_picked, Hp. reflexivity.
  - unfold data_url_of. rewrite Hm. reflexivity.
  - unfold data_url_of. rewrite Hm, parseDataUrl_fields. reflexivity.
Qed.

End ServiceCases.


(* ------------------------------------------------------------------ *)
(** ** Every undisturbed session ends *)

Section SessionEnds.

Context {V : Type}.
Variable JSON_stringify : V -> stringified.

Lemma first_attempt_run (w : World V) (p q : jsstring) (pp qp : ImagePayload)
    (r : GenerateContentResponse) (blob : ImagePayload) :
  can_generate w p q ->
  parseDataUrl (V:=V) p = Ret pp -> parseDataUrl (V:=V) q = Ret qp ->
  picked r = Some blob ->
  exec JSON_stringify w [User ClickMain; Settles (fresh w) (Fulfilled r)]
  = Some
      (show_result (data_url_of blob) (tick (start w)),
       started
       ++ [Called (buildRequest pp qp (prompt (component w)))]
       ++ showed_result (data_url_of blob)
       ++ []).
Proof.
  intros Hw Hp Hq H1.
  rewrite exec_cons, (step_click_generate JSON_stringify Hw). cbv zeta.
  rewrite run_attempt_valid with (pp:=pp) (qp:=qp) by (assumption || reflexivity).
  cbn [fst snd].
  rewrite exec_cons, step_settles by reflexivity.
  rewrite run_attempt_after_success with (blob:=blob) by (assumption || reflexivity).
  rewrite exec_nil.
  reflexivity.
Qed.

Lemma second_attempt_run (w : World V) (p q : jsstring) (pp qp : ImagePayload)
    (o1 : settled V) (r : GenerateContentResponse) (blob : ImagePayload) :
  can_generate w p q ->
  parseDataUrl (V:=V) p = Ret pp -> parseDataUrl (V:=V) q = Ret qp ->
  fails o1 -> picked r = Some blob ->
  exec JSON_stringify w
    [User ClickMain; Settles (fresh w) o1; Fires (1 + fresh w);
     Settles (2 + fresh w) (Fulfilled r)]
  = Some
      (show_result (data_url_of blob) (tick (announce 2 (tick (tick (start w))))),
       started
       ++ ([Called (buildRequest pp qp (prompt (component w)))]
           ++ service_log o1
           ++ [attempt_failed JSON_stringify 1 (cause o1); Waited 2000])
       ++ (status 2 ++ [Called (buildRequest pp qp (prompt (component w)))])
       ++ showed_result (data_url_of blob)
       ++ []).
Proof.
  intros Hw Hp Hq H1 H2.
  rewrite exec_cons, (step_click_generate JSON_stringify Hw). cbv zeta.
  rewrite run_attempt_valid with (pp:=pp) (qp:=qp) by (assumption || reflexivity).
  cbn [fst snd].
  rewrite exec_cons, step_settles by reflexivity.
  rewrite run_attempt_after_failure by (assumption || reflexivity).
  rewrite exec_cons, step_fires by reflexivity.
  rewrite run_attempt_valid with (pp:=pp) (qp:=qp) by (assumption || reflexivity).
  rewrite exec_cons, step_settles by reflexivity.
  rewrite run_attempt_after_success with (blob:=blob) by (assumption || reflexivity).
  rewrite exec_nil.
  reflexivity.
Qed.

Lemma calls_service_log (o : settled V) : calls (service_log o) = [].
Proof. unfold service_log. apply calls_logged. Qed.

(** X15.  Whatever the three remote calls answer, a session started with
    valid images and left undisturbed ends after at most three calls with
    the loading flag off and none of its tasks parked: in [Results] with the
    image of the first call that carries one, the calls before it having
    failed, or in [Error] when all three fail. *)
Theorem session_terminates (w : World V) (p q : jsstring) (pp qp : ImagePayload)
    (o1 o2 o3 : settled V) :
  can_generate w p q ->
  parseDataUrl (V:=V) p = Ret pp -> parseDataUrl (V:=V) q = Ret qp ->
  exists k w' t,
    exec JSON_stringify w
      (User ClickMain :: firstn k (session_events (fresh w) o1 o2 o3))
    = Some (w', t)
    /\ pending w' = pending w
    /\ isLoading (component w') = false
    /\ length (calls t) <= 3
    /\ ((appState (component w') = Error /\ fails o1 /\ fails o2 /\ fails o3)
        \/ (appState (component w') = Results
            /\ exists r blob,
                 nth_error [o1; o2; o3] (length (calls t) - 1) = Some (Fulfilled r)
                 /\ Forall (@fails V) (firstn (length (calls t) - 1) [o1; o2; o3])
                 /\ picked r = Some blob
                 /\ generatedImage (component w')
                    = Some (lit "data:" ++ interpolate (mimeType blob)
                              ++ lit ";base64," ++ interpolate (data blob)))).
Proof.
  intros Hw Hp Hq.
  destruct (settled_cases o1) as [H1 | (r & blob & -> & Hr)].
  2:{ exists 1. eexists. eexists.
      split; [cbn [firstn session_events]; eapply first_attempt_run; eassumption|].
      split; [reflexivity|]. split; [reflexivity|].
      rewrite !calls_app. cbn. split; [lia|]. right. split; [reflexivity|].
      exists r, blob. split; [reflexivity|]. split; [constructor|]. now split. }
  destruct (settled_cases o2) as [H2 | (r & blob & -> & Hr)].
  2:{ exists 3. eexists. eexists.
      split; [cbn [firstn session_events]; eapply second_attempt_run; eassumption|].
      split; [reflexivity|]. split; [reflexivity|].
      rewrite !calls_app, calls_service_log. cbn. split; [lia|]. right.
      split; [reflexivity|].
      exists r, blob. split; [reflexivity|].
      split; [repeat constructor; assumption|]. now split. }
  destruct (settled_cases o3) as [H3 | (r & blob & -> & Hr)].
  2:{ exists 5. eexists. eexists.
      split; [cbn [firstn session_events]; eapply third_attempt_run; eassumption|].
      split; [reflexivity|]. split; [reflexivity|].
      rewrite !calls_app, !calls_service_log. cbn. split; [lia|]. right.
      split; [reflexivity|].
      exists r, blob. split; [reflexivity|].
      split; [repeat constructor; assumption|]. now split. }
  exists 5. eexists. eexists.
  split; [cbn [firstn session_events]; eapply exhaustion_run; eassumption|].
  split; [reflexivity|]. split; [reflexivity|].
  rewrite !calls_app, !calls_service_log. cbn. split; [lia|]. left.
  now repeat split.
Qed.

(** X16.  When an image is missing or empty, [handleGenerate] returns without
    any effect and the button that calls it is disabled. *)
Theorem generate_needs_both_images (w : World V) :
  truthy (personImage (component w)) && truthy (productImage (component w)) = false ->
  run (handleGenerate JSON_stringify (component w)) w = (w, [])
  /\ step JSON_stringify w (User ClickMain) = None.
Proof.
  intros H. split.
  - unfold handleGenerate, truthy in *.
    destruct (personImage (component w)) as [[|c p]|]; try reflexivity.
    destruct (productImage (component w)) as [[|c' q]|]; try reflexivity.
    discriminate.
  - unfold step, enabled.
    destruct (truthy (personImage (component w))),
             (truthy (productImage (component w)));
      try discriminate; now rewrite ?andb_false_r.
Qed.

End SessionEnds.


(* ------------------------------------------------------------------ *)
Import Pages.

(** ** Instances on the sample pages *)

Lemma loaded_reachable : reachable only_errors (loaded person_url product_url).
Proof.
  exists [User (FileLoaded person person_url); User (FileLoaded product product_url)].
  eexists. reflexivity.
Qed.

Lemma generating_reachable : reachable only_errors generating.
Proof.
  exists [User (FileLoaded person person_url); User (FileLoaded product product_url);
          User ClickMain].
  eexists. vm_compute. reflexivity.
Qed.

Lemma cancelled_page_reachable : reachable only_errors cancelled_page.
Proof.
  exists [User (FileLoaded person person_url); User (FileLoaded product product_url);
          User ClickMain; User ClickCancel].
  eexists. vm_compute. reflexivity.
Qed.

Lemma shown_reachable : reachable only_errors shown.
Proof.
  exists [User (FileLoaded person person_url); User (FileLoaded product product_url);
          User ClickMain; Settles 0 (Fulfilled image_response)].
  eexists. vm_compute. reflexivity.
Qed.

Lemma failed_reachable : reachable only_errors failed.
Proof.
  exists [User (FileLoaded person text_file_url); User (FileLoaded product product_url);
          User ClickMain; Fires 0; Fires 1].
  eexists. vm_compute. reflexivity.
Qed.

Lemma first_inline_part_wins_witness :
  processGeminiResponse (V:=Empty_set) image_response
  = Ret (lit "data:image/png;base64,AAAA").
Proof.
  apply (@first_inline_part_wins Empty_set image_response
           {| content := Some {| parts := Some
                [ {| inlineData := None; part_text := Some (lit "Here you go") |};
                  {| inlineData := Some {| mimeType := Some (lit "image/png");
                                           data := Some (lit "AAAA") |};
                     part_text := None |} ] |} |}
           []
           {| parts := Some
                [ {| inlineData := None; part_text := Some (lit "Here you go") |};
                  {| inlineData := Some {| mimeType := Some (lit "image/png");
                                           data := Some (lit "AAAA") |};
                     part_text := None |} ] |}
           [ {| inlineData := None; part_text := Some (lit "Here you go") |} ]
           []
           {| inlineData := Some {| mimeType := Some (lit "image/png");
                                    data := Some (lit "AAAA") |};
              part_text := None |}
           {| mimeType := Some (lit "image/png"); data := Some (lit "AAAA") |});
    try reflexivity.
  repeat constructor.
Defined.

Lemma generated_url_decodes_witness :
  exists url,
    processGeminiResponse (V:=Empty_set) image_response = Ret url
    /\ parseDataUrl (V:=Empty_set) url
       = Ret {| mimeType := Some (lit "image/png"); data := Some (lit "AAAA") |}.
Proof.
  apply (@generated_url_decodes Empty_set image_response
           {| mimeType := Some (lit "image/png"); data := Some (lit "AAAA") |}).
  - reflexivity.
  - exists (lit "image/png"), (lit "AAAA"). split; [reflexivity|]. split; [|reflexivity].
    exists (lit "png"). split; [reflexivity|]. split; [discriminate | reflexivity].
Defined.

Lemma missing_media_type_is_not_decodable_witness :
  exists url,
    processGeminiResponse (V:=Empty_set) untyped_response = Ret url
    /\ url = lit "data:undefined;base64,AAAA"
    /\ parseDataUrl (V:=Empty_set) url = Throw (JsError invalid_format_message).
Proof.
  apply (@missing_media_type_is_not_decodable Empty_set untyped_response
           {| mimeType := None; data := Some (lit "AAAA") |}); reflexivity.
Defined.

Lemma decode_rejects_line_terminators_witness :
  parseDataUrl (V:=Empty_set) wrapped_url
  = Throw (JsError (lit "Invalid image data URL format. Expected 'data:image/...;base64,...'")).
Proof.
  apply decode_rejects_line_terminators. reflexivity.
Defined.

Lemma loading_iff_generating_witness :
  isLoading (component generating) = true <-> appState (component generating) = Generating.
Proof.
  exact (loading_iff_generating generating_reachable).
Defined.

Lemma idle_page_is_blank_witness :
  generatedImage (component cancelled_page) = None
  /\ error (component cancelled_page) = None
  /\ isLoading (component cancelled_page) = false.
Proof.
  apply (idle_page_is_blank cancelled_page_reachable). reflexivity.
Defined.

Lemma results_page_has_image_witness :
  isLoading (component shown) = false
  /\ exists resultUrl,
       generatedImage (component shown) = Some resultUrl /\ resultUrl <> [].
Proof.
  apply (results_page_has_image shown_reachable). reflexivity.
Defined.

Lemma error_text_is_fixed_witness :
  terminal_message = lit "That didn't work, trying again... (Attempt 2/3)"
  \/ terminal_message = lit "That didn't work, trying again... (Attempt 3/3)"
  \/ terminal_message
     = lit "Sorry, the AI couldn't create an image. Please try different images or a new prompt.".
Proof.
  apply (@error_text_is_fixed Empty_set only_errors failed terminal_message failed_reachable).
  reflexivity.
Defined.

Lemma every_request_is_well_formed_witness :
  Forall (fun params =>
            exists a b prompt,
              params = request_of a b prompt /\ image_payload a /\ image_payload b)
         (calls (started (V:=Empty_set)
                 ++ [Called (buildRequest person_payload product_payload
                               PROMPT_OPTIONS_lifestyle)])).
Proof.
  apply (@every_request_is_well_formed Empty_set only_errors
           (loaded person_url product_url) generating [User ClickMain] _
           loaded_reachable).
  vm_compute. reflexivity.
Defined.

Lemma cancelled_page_is_frozen_witness :
  exists w' t,
    exec only_errors cancelled_page [Settles 0 (Fulfilled image_response)] = Some (w', t)
    /\ component w' = component cancelled_page /\ only_logs t.
Proof.
  eexists _, _. split; [vm_compute; reflexivity|].
  apply (@cancelled_page_is_frozen Empty_set only_errors cancelled_page _
           [Settles 0 (Fulfilled image_response)] _ cancelled_page_reachable);
    [reflexivity | reflexivity | vm_compute; reflexivity].
Defined.

Lemma loop_keeps_inputs_witness :
  exists w' t,
    exec only_errors generating [Settles 0 (Fulfilled image_response)] = Some (w', t)
    /\ personImage (component w') = Some person_url
    /\ productImage (component w') = Some product_url.
Proof.
  eexists _, _. split; [vm_compute; reflexivity|].
  destruct (@loop_keeps_inputs Empty_set only_errors generating _
              [Settles 0 (Fulfilled image_response)] _ generating_reachable eq_refl
              ltac:(vm_compute; reflexivity))
    as (H1 & H2 & _).
  split; [exact H1 | exact H2].
Defined.

Lemma error_page_needs_reset_witness :
  step only_errors failed (User ClickMain) = Some (reset failed, reset_writes).
Proof.
  apply (proj2 (@error_page_needs_reset Empty_set only_errors failed eq_refl));
    reflexivity.
Defined.

Lemma session_terminates_witness :
  exists k w' t,
    exec only_errors (loaded person_url product_url)
      (User ClickMain
       :: firstn k (session_events 0 (Rejected (JsError (lit "quota")))
                      (Fulfilled image_response) (Fulfilled text_response)))
    = Some (w', t)
    /\ isLoading (component w') = false
    /\ length (calls t) <= 3.
Proof.
  destruct (@session_terminates Empty_set only_errors (loaded person_url product_url)
              person_url product_url person_payload product_payload
              (Rejected (JsError (lit "quota"))) (Fulfilled image_response)
              (Fulfilled text_response) loaded_can_generate eq_refl eq_refl)
    as (k & w' & t & He & _ & Hl & Hc & _).
  exists k, w', t. repeat split; assumption.
Defined.

Lemma generate_needs_both_images_witness :
  run (handleGenerate only_errors (component (initialWorld (V:=Empty_set)))) initialWorld
  = (initialWorld, [])
  /\ step only_errors initialWorld (User ClickMain) = None.
Proof.
  apply (@generate_needs_both_images Empty_set only_errors initialWorld). reflexivity.
Defined.
